(** * TXToo: envelope codec, identifier generator and ephemeral record store

    A shallow embedding of the TypeScript sources of the repository:
    - [utils/crypto.ts]  : [base64urlEncode], [base64urlDecode], [deriveKey],
                           [encryptText], [decryptText];
    - [workers/src/index.ts] : [isOriginAllowed], [getCorsHeaders],
                           [generateId], the exported handler with its
                           routes [POST /api/submit] and
                           [GET /api/fetch/{id}] over [texts];
    - [src/Home.tsx]     : [generateRandomPassword],
                           [handleEncryptAndSubmit];
    - [src/ViewNote.tsx] : [fetchAndDecrypt].

    JavaScript strings are sequences of UTF-16 code units (here [list N]),
    [Uint8Array]s are [list byte].  The platform functions the sources call
    ([btoa], [atob], [TextEncoder], [TextDecoder], [crypto.getRandomValues])
    are written out after their specifications (HTML, WHATWG Encoding, Web
    Crypto); AES-GCM itself is a parameter of the sections that need it.
    JavaScript numbers are IEEE 754 doubles, with the operations of the
    Standard Library's specification of floating-point arithmetic. *)

From Stdlib Require Import NArith ZArith Zpower Lia ZifyNat ZifyN List Bool.
From Stdlib Require Import Strings.Byte Strings.Ascii Strings.String.
From Stdlib Require SpecFloat.
From stdpp Require Import base option list gmap.
Import ListNotations.

Local Open Scope N_scope.

(** ** Values and errors *)

(** A JavaScript string: its UTF-16 code units. *)
Definition jsstring := list N.

(** A [Uint8Array]. *)
Definition bytes := list byte.

(** The exceptions the modelled platform calls can throw. *)
Inductive DOMException :=
| InvalidCharacterError   (* btoa / atob *)
| OperationError          (* crypto.subtle.decrypt: authentication failed *)
| QuotaExceededError.     (* crypto.getRandomValues: more than 65536 bytes *)

(** The outcome of a call that may throw. *)
Inductive result (A : Type) :=
| Ok (a : A)
| Throw (e : DOMException).
Arguments Ok {A} a.
Arguments Throw {A} e.

Definition bind {A B} (r : result A) (k : A -> result B) : result B :=
  match r with
  | Ok a => k a
  | Throw e => Throw e
  end.

Notation "'let*' x ':=' r 'in' k" := (bind r (fun x => k))
  (at level 10, x name, r at level 100, k at level 200).
Notation "'let*' ' p ':=' r 'in' k" := (bind r (fun p => k))
  (at level 10, p strict pattern, r at level 100, k at level 200).

(** [bytes[i] = n] on a [Uint8Array]: the value is stored modulo 256. *)
Definition byte_of_N (n : N) : byte :=
  match Byte.of_N (n mod 256) with
  | Some b => b
  | None => x00
  end.

(** ** [btoa] and [atob] (HTML: forgiving-base64) *)

Module Base64.

Definition PLUS : N := 43.     (* '+' *)
Definition MINUS : N := 45.    (* '-' *)
Definition SLASH : N := 47.    (* '/' *)
Definition EQUALS : N := 61.   (* '=' *)
Definition UNDERSCORE : N := 95. (* '_' *)

(** The character of a sextet in
    [ABCDEFGHIJKLMNOPQRSTUVWXYZabcdefghijklmnopqrstuvwxyz0123456789+/]. *)
Definition char_of_sextet (s : N) : N :=
  if s <? 26 then s + 65
  else if s <? 52 then s + 71
  else if s <? 62 then s - 4
  else if s =? 62 then PLUS
  else SLASH.

(** Membership in the base64 alphabet. *)
Definition is_alphabet (c : N) : bool :=
  ((65 <=? c) && (c <=? 90)) || ((97 <=? c) && (c <=? 122))
  || ((48 <=? c) && (c <=? 57)) || (c =? PLUS) || (c =? SLASH).

(** The sextet of an alphabet character. *)
Definition sextet_of_char (c : N) : N :=
  if (65 <=? c) && (c <=? 90) then c - 65
  else if (97 <=? c) && (c <=? 122) then c - 71
  else if (48 <=? c) && (c <=? 57) then c + 4
  else if c =? PLUS then 62
  else 63.

(** Base64 with padding, three octets at a time. *)
Fixpoint encode (l : list N) : jsstring :=
  match l with
  | [] => []
  | [a] =>
      [char_of_sextet (a / 4); char_of_sextet ((a mod 4) * 16);
       EQUALS; EQUALS]
  | [a; b] =>
      [char_of_sextet (a / 4); char_of_sextet ((a mod 4) * 16 + b / 16);
       char_of_sextet ((b mod 16) * 4); EQUALS]
  | a :: b :: c :: rest =>
      char_of_sextet (a / 4)
      :: char_of_sextet ((a mod 4) * 16 + b / 16)
      :: char_of_sextet ((b mod 16) * 4 + c / 64)
      :: char_of_sextet (c mod 64)
      :: encode rest
  end.

(** Base64 without the trailing padding. *)
Fixpoint encode_nopad (l : list N) : jsstring :=
  match l with
  | [] => []
  | [a] => [char_of_sextet (a / 4); char_of_sextet ((a mod 4) * 16)]
  | [a; b] =>
      [char_of_sextet (a / 4); char_of_sextet ((a mod 4) * 16 + b / 16);
       char_of_sextet ((b mod 16) * 4)]
  | a :: b :: c :: rest =>
      char_of_sextet (a / 4)
      :: char_of_sextet ((a mod 4) * 16 + b / 16)
      :: char_of_sextet ((b mod 16) * 4 + c / 64)
      :: char_of_sextet (c mod 64)
      :: encode_nopad rest
  end.

(** [btoa(binary)]: throws when a code unit is above U+00FF. *)
Definition btoa (binary : jsstring) : result jsstring :=
  if forallb (fun c => c <=? 255) binary then Ok (encode binary)
  else Throw InvalidCharacterError.

(** ASCII whitespace: TAB, LF, FF, CR, SPACE. *)
Definition is_whitespace (c : N) : bool :=
  (c =? 9) || (c =? 10) || (c =? 12) || (c =? 13) || (c =? 32).

(** Remove one or two trailing ['='] characters. *)
Fixpoint strip_padding (s : jsstring) : jsstring :=
  match s with
  | [] => []
  | c :: r =>
      if (c =? EQUALS)
         && match r with
            | [] => true
            | [d] => d =? EQUALS
            | _ => false
            end
      then []
      else c :: strip_padding r
  end.

(** Sextets to octets; a final group of two or three characters yields one
    or two octets, the left-over bits being discarded. *)
Fixpoint decode (s : jsstring) : list N :=
  match s with
  | c1 :: c2 :: c3 :: c4 :: rest =>
      let s1 := sextet_of_char c1 in
      let s2 := sextet_of_char c2 in
      let s3 := sextet_of_char c3 in
      let s4 := sextet_of_char c4 in
      (s1 * 4 + s2 / 16)
      :: ((s2 mod 16) * 16 + s3 / 4)
      :: ((s3 mod 4) * 64 + s4)
      :: decode rest
  | [c1; c2; c3] =>
      let s1 := sextet_of_char c1 in
      let s2 := sextet_of_char c2 in
      let s3 := sextet_of_char c3 in
      [s1 * 4 + s2 / 16; (s2 mod 16) * 16 + s3 / 4]
  | [c1; c2] =>
      let s1 := sextet_of_char c1 in
      let s2 := sextet_of_char c2 in
      [s1 * 4 + s2 / 16]
  | _ => []
  end.

(** [atob(data)]: the forgiving-base64 decode. *)
Definition atob (data : jsstring) : result jsstring :=
  let data := List.filter (fun c => negb (is_whitespace c)) data in
  let data :=
    if (length data mod 4 =? 0)%nat then strip_padding data else data in
  if (length data mod 4 =? 1)%nat then Throw InvalidCharacterError
  else if negb (forallb is_alphabet data) then Throw InvalidCharacterError
  else Ok (decode data).

End Base64.

(** ** [base64urlEncode] and [base64urlDecode] *)

(** [s.replace(/x/g, y)] for single characters [x] and [y]. *)
Definition replace_char (x y : N) (s : jsstring) : jsstring :=
  map (fun c => if c =? x then y else c) s.

(** [s.replace(/x/g, '')]. *)
Definition remove_char (x : N) (s : jsstring) : jsstring :=
  List.filter (fun c => negb (c =? x)) s.

(** [String.fromCharCode(bytes[i])] appended for every index. *)
Definition binary_of_bytes (b : bytes) : jsstring := map Byte.to_N b.

Definition base64urlEncode (buffer : bytes) : result jsstring :=
  let binary := binary_of_bytes buffer in
  let* s := Base64.btoa binary in
  Ok (remove_char Base64.EQUALS
        (replace_char Base64.SLASH Base64.UNDERSCORE
           (replace_char Base64.PLUS Base64.MINUS s))).

(** [while (str.length % 4) str += '=']; the loop runs at most three times. *)
Fixpoint pad_loop (fuel : nat) (str : jsstring) : jsstring :=
  match fuel with
  | O => str
  | S fuel' =>
      if (length str mod 4 =? 0)%nat then str
      else pad_loop fuel' (str ++ [Base64.EQUALS])
  end.

Definition base64urlDecode (str : jsstring) : result bytes :=
  let str := replace_char Base64.UNDERSCORE Base64.SLASH
               (replace_char Base64.MINUS Base64.PLUS str) in
  let str := pad_loop 3 str in
  let* binary := Base64.atob str in
  Ok (map byte_of_N binary).

(** The two substitutions of [base64urlEncode] on one character, and the
    two of [base64urlDecode]. *)
Definition to_url (c : N) : N :=
  let c := if c =? Base64.PLUS then Base64.MINUS else c in
  if c =? Base64.SLASH then Base64.UNDERSCORE else c.

Definition from_url (c : N) : N :=
  let c := if c =? Base64.MINUS then Base64.PLUS else c in
  if c =? Base64.UNDERSCORE then Base64.SLASH else c.

(** What [base64urlEncode] produces: unpadded base64 in the URL alphabet. *)
Definition url_nopad (b : bytes) : jsstring :=
  map to_url (Base64.encode_nopad (binary_of_bytes b)).

(** ** [TextEncoder] and [TextDecoder] (WHATWG Encoding, UTF-8) *)

Module Encoding.

Definition REPLACEMENT : N := 65533.   (* U+FFFD *)
Definition BOM : N := 65279.           (* U+FEFF *)

(** Leading (high) and trailing (low) surrogate code units. *)
Definition is_high (c : N) : bool := (55296 <=? c) && (c <=? 56319).
Definition is_low (c : N) : bool := (56320 <=? c) && (c <=? 57343).

(** Conversion of a JavaScript string to scalar values: a surrogate pair is
    one code point, a surrogate that is not part of a pair becomes U+FFFD. *)
Fixpoint to_scalar_values (s : jsstring) : list N :=
  match s with
  | [] => []
  | c :: rest =>
      if is_high c then
        match rest with
        | d :: rest' =>
            if is_low d
            then (65536 + (c - 55296) * 1024 + (d - 56320))
                 :: to_scalar_values rest'
            else REPLACEMENT :: to_scalar_values rest
        | [] => [REPLACEMENT]
        end
      else if is_low c then REPLACEMENT :: to_scalar_values rest
      else c :: to_scalar_values rest
  end.

(** The UTF-8 encoder on one scalar value; [c / 64] is [c >> 6] and
    [c mod 64] is [c & 0x3F]. *)
Definition utf8_encode_scalar (c : N) : list N :=
  if c <? 128 then [c]
  else if c <? 2048 then [192 + c / 64; 128 + c mod 64]
  else if c <? 65536 then
    [224 + c / 4096; 128 + (c / 64) mod 64; 128 + c mod 64]
  else
    [240 + c / 262144; 128 + (c / 4096) mod 64; 128 + (c / 64) mod 64;
     128 + c mod 64].

(** [new TextEncoder().encode(s)]. *)
Definition encode (s : jsstring) : bytes :=
  map byte_of_N (flat_map utf8_encode_scalar (to_scalar_values s)).

(** The state of the UTF-8 decoder. *)
Record decoder := {
  code_point : N;
  bytes_seen : N;
  bytes_needed : N;
  lower_boundary : N;
  upper_boundary : N
}.

Definition initial : decoder :=
  {| code_point := 0; bytes_seen := 0; bytes_needed := 0;
     lower_boundary := 128; upper_boundary := 191 |}.

(** A byte read when no continuation byte is needed: the next state and the
    code points emitted. *)
Definition lead (b : N) : decoder * list N :=
  if b <=? 127 then (initial, [b])
  else if (194 <=? b) && (b <=? 223) then
    ({| code_point := b mod 32; bytes_seen := 0; bytes_needed := 1;
        lower_boundary := 128; upper_boundary := 191 |}, [])
  else if (224 <=? b) && (b <=? 239) then
    ({| code_point := b mod 16; bytes_seen := 0; bytes_needed := 2;
        lower_boundary := if b =? 224 then 160 else 128;
        upper_boundary := if b =? 237 then 159 else 191 |}, [])
  else if (240 <=? b) && (b <=? 244) then
    ({| code_point := b mod 8; bytes_seen := 0; bytes_needed := 3;
        lower_boundary := if b =? 240 then 144 else 128;
        upper_boundary := if b =? 244 then 143 else 191 |}, [])
  else (initial, [REPLACEMENT]).

(** One byte through the decoder.  A byte outside the expected range ends
    the sequence with U+FFFD and is then read again from the initial state. *)
Definition step (d : decoder) (b : N) : decoder * list N :=
  if bytes_needed d =? 0 then lead b
  else if (b <? lower_boundary d) || (upper_boundary d <? b) then
    let '(d', out) := lead b in (d', REPLACEMENT :: out)
  else
    let cp := code_point d * 64 + b mod 64 in
    if bytes_seen d + 1 =? bytes_needed d then (initial, [cp])
    else ({| code_point := cp; bytes_seen := bytes_seen d + 1;
             bytes_needed := bytes_needed d;
             lower_boundary := 128; upper_boundary := 191 |}, []).

(** The decoder over a byte sequence; an unfinished sequence at the end of
    the input is an error as well. *)
Fixpoint run (d : decoder) (bs : list N) : list N :=
  match bs with
  | [] => if bytes_needed d =? 0 then [] else [REPLACEMENT]
  | b :: rest => let '(d', out) := step d b in out ++ run d' rest
  end.

(** A code point as UTF-16 code units. *)
Definition code_units (c : N) : list N :=
  if c <? 65536 then [c]
  else [55296 + (c - 65536) / 1024; 56320 + (c - 65536) mod 1024].

(** With [ignoreBOM] false (the default) a leading U+FEFF is not output. *)
Definition strip_bom (cps : list N) : list N :=
  match cps with
  | c :: rest => if c =? BOM then rest else cps
  | [] => []
  end.

(** [new TextDecoder().decode(b)]. *)
Definition decode (b : bytes) : jsstring :=
  flat_map code_units (strip_bom (run initial (map Byte.to_N b))).

(** Unicode scalar values: code points that are not surrogates. *)
Definition scalar_value (c : N) : Prop :=
  c < 55296 \/ (57343 < c /\ c < 1114112).

(** Strings without unpaired surrogates, every code unit below 2^16. *)
Fixpoint well_formed (s : jsstring) : bool :=
  match s with
  | [] => true
  | c :: rest =>
      if is_high c then
        match rest with
        | d :: rest' => is_low d && well_formed rest'
        | [] => false
        end
      else negb (is_low c) && (c <? 65536) && well_formed rest
  end.

End Encoding.

(** Code units of a JavaScript string value: all below 2^16. *)
Definition is_jsstring (s : jsstring) : Prop := Forall (fun c => c < 65536) s.

(** The string does not start with U+FEFF. *)
Definition no_leading_bom (s : jsstring) : Prop :=
  match s with
  | c :: _ => c <> Encoding.BOM
  | [] => True
  end.

(** [s.toWellFormed()]: the string with every unpaired surrogate replaced
    by U+FFFD. *)
Definition toWellFormed (s : jsstring) : jsstring :=
  flat_map Encoding.code_units (Encoding.to_scalar_values s).

(** The string without its first character when that is U+FEFF. *)
Definition without_leading_bom (s : jsstring) : jsstring :=
  match s with
  | c :: rest => if c =? Encoding.BOM then rest else s
  | [] => []
  end.

(** ** [crypto.getRandomValues] *)

(** The entropy source of the process: the bytes it delivers, in order, and
    how many of them have been drawn. *)
Record rng := { source : nat -> byte; drawn : nat }.

(** [crypto.getRandomValues(new Uint8Array(n))]: the next [n] bytes of the
    source; a request for more than 65536 bytes throws. *)
Definition getRandomValues (n : N) (g : rng) : result (bytes * rng) :=
  if 65536 <? n then Throw QuotaExceededError
  else Ok (map (source g) (seq (drawn g) (N.to_nat n)),
           {| source := source g; drawn := drawn g + N.to_nat n |}).

(** A string literal as a JavaScript string (ASCII only). *)
Definition js (s : string) : jsstring :=
  map Ascii.N_of_ascii (String.list_ascii_of_string s).

(** ** JavaScript numbers *)

(** A number is an IEEE 754 binary64 value: a signed zero, an infinity,
    NaN, or a finite [m * 2^e] with a sign. *)
Module Number.

Definition number := SpecFloat.spec_float.

(** [x + y], rounded to nearest, ties to even. *)
Definition add (x y : number) : number := SpecFloat.SFadd 53 1024 x y.

(** [x < y]; false when either is NaN. *)
Definition lt (x y : number) : bool := SpecFloat.SFltb x y.

(** The number of a whole value (the nearest one when the value has more
    than 53 significant bits). *)
Definition of_Z (z : Z) : number :=
  SpecFloat.binary_normalize 53 1024 z 0 false.

(** [!x]: the zeros and NaN are falsy. *)
Definition falsy (x : number) : bool :=
  match x with
  | SpecFloat.S754_zero _ | SpecFloat.S754_nan => true
  | _ => false
  end.

(** The number of binary digits of [p], and the representation of a
    whole value [n] below [2^53] with the sign [s]: the value shifted to
    53 bits. *)
Definition digits (p : positive) : Z := Z.pos (SpecFloat.digits2_pos p).

Definition canonical (s : bool) (n : positive) : number :=
  SpecFloat.S754_finite s
    (Pos.shiftl n (Z.to_N (53 - digits n))) (digits n - 53).

(** What [JSON.parse] reads back from [JSON.stringify(x)]: NaN and the
    infinities are written [null], and -0 is written [0]. *)
Definition json (x : number) : option number :=
  match x with
  | SpecFloat.S754_nan | SpecFloat.S754_infinity _ => None
  | SpecFloat.S754_zero _ => Some (SpecFloat.S754_zero false)
  | SpecFloat.S754_finite _ _ _ => Some x
  end.

End Number.

(** ** The envelope codec ([utils/crypto.ts]) *)

Module Crypto.

(** A non-extractable [CryptoKey]: a handle on the key PBKDF2 derives from
    the imported password bytes and the salt, with the algorithm parameters
    of the call. *)
Record CryptoKey := {
  passwordBuffer : bytes;
  salt : bytes;
  iterations : N;
  hash : N;          (* 256: SHA-256 *)
  length : N         (* 256: AES-GCM key length in bits *)
}.

Definition deriveKey (password : jsstring) (salt : bytes) : CryptoKey :=
  let passwordBuffer := Encoding.encode password in
  {| passwordBuffer := passwordBuffer; salt := salt;
     iterations := 100000; hash := 256; length := 256 |}.

(** What [encryptText] returns. *)
Record Envelope := { cipherText : jsstring; iv : jsstring }.

Section AesGcm.

(** [crypto.subtle.encrypt] and [crypto.subtle.decrypt] with
    [{name: 'AES-GCM', iv}]: key, nonce, data.  Decryption gives nothing
    when the authentication tag does not verify. *)
Variable aes_gcm_encrypt : CryptoKey -> bytes -> bytes -> bytes.
Variable aes_gcm_decrypt : CryptoKey -> bytes -> bytes -> option bytes.

Definition encryptText (text password : jsstring) (g : rng)
  : result (Envelope * rng) :=
  let data := Encoding.encode text in
  let* '(salt, g) := getRandomValues 16 g in
  let* '(iv, g) := getRandomValues 12 g in
  let key := deriveKey password salt in
  let encryptedData := aes_gcm_encrypt key iv data in
  let combinedBuffer := salt ++ encryptedData in
  let* cipherText := base64urlEncode combinedBuffer in
  let* ivString := base64urlEncode iv in
  Ok ({| cipherText := cipherText; iv := ivString |}, g).

Definition decryptText (cipherText ivString password : jsstring)
  : result jsstring :=
  let* combinedBuffer := base64urlDecode cipherText in
  let* iv := base64urlDecode ivString in
  let salt := firstn 16 combinedBuffer in
  let encryptedData := skipn 16 combinedBuffer in
  let key := deriveKey password salt in
  match aes_gcm_decrypt key iv encryptedData with
  | Some decryptedData => Ok (Encoding.decode decryptedData)
  | None => Throw OperationError
  end.

End AesGcm.

End Crypto.

(** ** The worker ([workers/src/index.ts]) *)

Module Worker.

(** [Math.ceil(length * 3 / 4)] for a whole [length]. *)
Definition ceil_3_4 (length : N) : N := (length * 3 + 3) / 4.

(** [generateId(length)]; the default [length] is 12. *)
Definition generateId (length : N) (g : rng) : result (jsstring * rng) :=
  let* '(bytes, g) := getRandomValues (ceil_3_4 length) g in
  let* s := Base64.btoa (binary_of_bytes bytes) in
  let base64 :=
    remove_char Base64.EQUALS
      (replace_char Base64.SLASH Base64.UNDERSCORE
         (replace_char Base64.PLUS Base64.MINUS s)) in
  Ok (firstn (N.to_nat length) base64, g).

(** A row of the [texts] table; [id] is its primary key.  [created_at] is
    a whole number of seconds ([Math.floor(Date.now() / 1000)]),
    [expires_at] the number bound to the [INSERT]. *)
Record Row := {
  cipher_text : jsstring;
  iv : jsstring;
  created_at : Z;
  expires_at : Number.number
}.

(** The [texts] table: at most one row per [id]. *)
Abbreviation DB := (gmap jsstring Row).

(** The JSON body of a submit request,
    [{ ttl?: number; cipherText?: string; iv?: string }]: every field may be
    absent (or [null]); [ttl] is any number JSON can carry, a fraction, a
    negative number or one beyond 2^53 included. *)
Module Request.
Record body := {
  ttl : option Number.number;
  cipherText : option jsstring;
  iv : option jsstring
}.
End Request.

(** The responses of the two routes. *)
Inductive Response :=
| SubmitSuccess (id : jsstring) (expiresAt : Number.number)
| FetchSuccess (id cipher_text iv : jsstring) (expiresAt : Number.number)
| Error (status : N).

Definition status (r : Response) : N :=
  match r with
  | SubmitSuccess _ _ | FetchSuccess _ _ _ _ => 200
  | Error s => s
  end.

(** [!ttl] and [!str]: absent, zero and the empty string are falsy. *)
Definition not_number (v : option Number.number) : bool :=
  match v with
  | Some n => Number.falsy n
  | None => true
  end.

Definition not_string (v : option jsstring) : bool :=
  match v with
  | Some [] | None => true
  | Some (_ :: _) => false
  end.

(** [POST /api/submit] at time [now] (seconds).  An exception in the [try]
    block, in particular the failed [INSERT] on an [id] already in the
    table, is answered with status 500. *)
Definition submit (now : Z) (body : Request.body) (g : rng) (db : DB)
  : Response * rng * DB :=
  if not_number (Request.ttl body) || not_string (Request.cipherText body)
     || not_string (Request.iv body)
  then (Error 400, g, db)
  else
    match Request.ttl body, Request.cipherText body, Request.iv body with
    | Some ttl, Some cipherText, Some iv =>
        match generateId 12 g with
        | Throw _ => (Error 500, g, db)
        | Ok (id, g) =>
            let expiresAt := Number.add (Number.of_Z now) ttl in
            match db !! id with
            | Some _ => (Error 500, g, db)
            | None =>
                (SubmitSuccess id expiresAt, g,
                 <[id := {| cipher_text := cipherText; iv := iv;
                            created_at := now; expires_at := expiresAt |}]> db)
            end
        end
    | _, _, _ => (Error 400, g, db)
    end.

(** [GET /api/fetch/{id}] at time [now] (seconds). *)
Definition fetch (now : Z) (id : jsstring) (db : DB) : Response * DB :=
  match db !! id with
  | None => (Error 404, db)
  | Some result =>
      if Number.lt (expires_at result) (Number.of_Z now)
      then (Error 410, delete id db)
      else (FetchSuccess id (cipher_text result) (iv result)
              (expires_at result), db)
  end.

End Worker.

(** ** What the pages read of an HTTP response *)

Module Http.

(** The [data] object of a JSON body, with the fields the pages read; a
    field the object does not have reads as [undefined]. *)
Record Data := {
  id : option jsstring;
  cipher_text : option jsstring;
  iv : option jsstring
}.

(** A response: its status and the [data] of its JSON body, nothing when
    reading [data] off the body throws (the body is not JSON) or gives
    [undefined]. *)
Record Response := { status : N; data : option Data }.

(** [response.ok]: a status from 200 to 299. *)
Definition ok (r : Response) : bool :=
  (200 <=? status r) && (status r <=? 299).

End Http.

(** ** The sender's page ([src/Home.tsx]) *)

Module Home.

Definition chars : jsstring :=
  js "ABCDEFGHIJKLMNOPQRSTUVWXYZabcdefghijklmnopqrstuvwxyz0123456789-_".

Definition length : N := 16.

(** [chars[i]] for an index within the string. *)
Definition char_at (s : jsstring) (i : N) : N := nth (N.to_nat i) s 0.

Definition generateRandomPassword (g : rng) : result (jsstring * rng) :=
  let* '(randomValues, g) := getRandomValues length g in
  Ok (map (fun v =>
             char_at chars (Byte.to_N v mod N.of_nat (List.length chars)))
        randomValues, g).

(** What [handleEncryptAndSubmit] leaves on the page: an [alert], or the
    result dialog with the share URL and its QR code. *)
Inductive Outcome :=
| Alert (message : jsstring)
| Result (shareUrl qrCodeDataUrl : jsstring).

Definition submitUrl (workerUrl : jsstring) : jsstring :=
  match workerUrl with
  | [] => js "/submit"
  | _ :: _ => workerUrl ++ js "/submit"
  end.

Section Submit.

Variable aes_gcm_encrypt : Crypto.CryptoKey -> bytes -> bytes -> bytes.

(** [import.meta.env.VITE_WORKERS_URL || ''] *)
Variable workerUrl : jsstring.

(** The browser's [fetch] with method [POST] and a JSON body, over the
    state of whatever answers it; it throws when no response arrives. *)
Variable World : Type.
Variable http_post :
  jsstring -> Worker.Request.body -> World -> result Http.Response * World.

(** [QRCodeLib.toDataURL] *)
Variable toDataURL : jsstring -> result jsstring.

(** [handleEncryptAndSubmit] with the page's [content], [password], [ttl]
    and [baseUrl].  Every exception in the [try] block ends in the same
    [alert]. *)
Definition handleEncryptAndSubmit (content password : jsstring)
    (ttl : Number.number) (baseUrl : jsstring) (g : rng) (w : World)
  : Outcome * rng * World :=
  match content with
  | [] => (Alert (js "Please enter content"), g, w)
  | _ :: _ =>
      let failed := Alert (js "An error occurred. Please try again.") in
      let generated :=
        match password with
        | [] => generateRandomPassword g
        | _ :: _ => Ok (password, g)
        end in
      match generated with
      | Throw _ => (failed, g, w)
      | Ok (encryptionPassword, g) =>
          match
            Crypto.encryptText aes_gcm_encrypt content encryptionPassword g
          with
          | Throw _ => (failed, g, w)
          | Ok (encrypted, g) =>
              let body :=
                {| Worker.Request.ttl := Number.json ttl;
                   Worker.Request.cipherText :=
                     Some (Crypto.cipherText encrypted);
                   Worker.Request.iv := Some (Crypto.iv encrypted) |} in
              match http_post (submitUrl workerUrl) body w with
              | (Throw _, w) => (failed, g, w)
              | (Ok response, w) =>
                  if Http.ok response then
                    match Http.data response with
                    | None => (failed, g, w)
                    | Some data =>
                        let noteId :=
                          match Http.id data with
                          | Some id => id
                          | None => js "undefined"
                          end in
                        let url :=
                          baseUrl ++ js "/" ++ noteId ++ js "~"
                          ++ encryptionPassword in
                        match toDataURL url with
                        | Throw _ => (failed, g, w)
                        | Ok qrDataUrl => (Result url qrDataUrl, g, w)
                        end
                    end
                  else
                    (Alert (js "Submission failed. Please try again."), g, w)
              end
          end
      end
  end.

End Submit.

End Home.

(** ** Characters that need no escaping in a URL path *)

(** The 64 characters of the base64url alphabet: [A-Z], [a-z], [0-9], ['-']
    and ['_']. *)
Definition url_safe (c : N) : bool :=
  ((65 <=? c) && (c <=? 90)) || ((97 <=? c) && (c <=? 122))
  || ((48 <=? c) && (c <=? 57)) || (c =? 45) || (c =? 95).

(** The characters [base64urlDecode] can accept: the base64 and base64url
    alphabets, ['='] and ASCII whitespace. *)
Definition decodable_char (c : N) : bool :=
  url_safe c || (c =? Base64.PLUS) || (c =? Base64.SLASH)
  || (c =? Base64.EQUALS) || Base64.is_whitespace c.

(** ['~'], which separates the id from the password in the share URL. *)
Definition TILDE : N := 126.

(** The 256 values of a byte, in order. *)
Definition all_bytes : bytes :=
  map (fun n => byte_of_N (N.of_nat n)) (seq 0 256).

(** ** Sample inputs *)

(** An entropy source used in examples: byte [i] is [37 i + 250] modulo
    256. *)
Definition sample_rng : rng :=
  {| source := fun i => byte_of_N (N.of_nat (i * 37 + 250)); drawn := 0 |}.

(** A well-formed submit body, and one with a negative [ttl]. *)
Definition sample_body : Worker.Request.body :=
  {| Worker.Request.ttl := Some (Number.of_Z 3600);
     Worker.Request.cipherText := Some (js "c1");
     Worker.Request.iv := Some (js "v1") |}.

Definition negative_ttl_body : Worker.Request.body :=
  {| Worker.Request.ttl := Some (Number.of_Z (-5));
     Worker.Request.cipherText := Some (js "c1");
     Worker.Request.iv := Some (js "v1") |}.

(** The numbers [0.5], [1e-20] and [2^53]. *)
Definition one_half : Number.number :=
  SpecFloat.S754_finite false 4503599627370496 (-53).
Definition one_e_minus_20 : Number.number :=
  SpecFloat.S754_finite false 6646139978924579 (-119).
Definition two_to_53 : Number.number := Number.of_Z (2 ^ 53).

(** The id [generateId()] computes from the first nine bytes of
    [sample_rng], and the one it computes from the next nine. *)
Definition sample_id : jsstring := js "-h9EaY6z2P0i".
Definition second_id : jsstring := js "R2yRttsAJUpv".

Definition sample_row : Worker.Row :=
  {| Worker.cipher_text := js "c0"; Worker.iv := js "v0";
     Worker.created_at := 900; Worker.expires_at := Number.of_Z 1000 |}.

(** A table that holds one row, under [sample_id]. *)
Definition sample_db : Worker.DB := {[ sample_id := sample_row ]}.

(** ** Assumptions on AES-GCM, and an instance of them *)

(** The salt and the nonce [encryptText] draws from the source [g]. *)
Definition drawn_salt (g : rng) : bytes :=
  map (source g) (seq (drawn g) 16).
Definition drawn_iv (g : rng) : bytes :=
  map (source g) (seq (drawn g + 16) 12).

(** Decryption undoes encryption under the same key and the same nonce of
    [n] bytes. *)
Definition aead_correct_at (n : nat)
    (encrypt : Crypto.CryptoKey -> bytes -> bytes -> bytes)
    (decrypt : Crypto.CryptoKey -> bytes -> bytes -> option bytes) : Prop :=
  forall key iv data,
    List.length iv = n -> decrypt key iv (encrypt key iv data) = Some data.

(** A small authenticated cipher with the interface of AES-GCM: the data is
    followed by a tag of 16 bytes read off the key material and the nonce,
    and decryption checks the tag.  It stands in for AES-GCM where a
    statement needs some cipher that meets the assumptions. *)
Module ModelAEAD.

Fixpoint bytes_eqb (a b : bytes) : bool :=
  match a, b with
  | [], [] => true
  | x :: a', y :: b' => Byte.eqb x y && bytes_eqb a' b'
  | _, _ => false
  end.

Definition tag (key : Crypto.CryptoKey) (iv : bytes) : bytes :=
  firstn 16 (Crypto.passwordBuffer key ++ Crypto.salt key ++ iv
             ++ repeat x00 16).

Definition encrypt (key : Crypto.CryptoKey) (iv data : bytes) : bytes :=
  data ++ tag key iv.

Definition decrypt (key : Crypto.CryptoKey) (iv data : bytes)
  : option bytes :=
  let n := (List.length data - 16)%nat in
  if (List.length data <? 16)%nat then None
  else if bytes_eqb (skipn n data) (tag key iv) then Some (firstn n data)
  else None.

End ModelAEAD.


(** A second model cipher, which meets both assumptions: the data is
    preceded by the password bytes of the key, each after a byte 1 and all
    closed by a byte 0, and decryption checks them. *)
Module ModelCommitting.

Fixpoint frame (m : bytes) : bytes :=
  match m with
  | [] => [x00]
  | b :: rest => x01 :: b :: frame rest
  end.

Fixpoint strip (prefix data : bytes) : option bytes :=
  match prefix, data with
  | [], _ => Some data
  | p :: prefix', x :: data' =>
      if Byte.eqb p x then strip prefix' data' else None
  | _ :: _, [] => None
  end.

Definition encrypt (key : Crypto.CryptoKey) (iv data : bytes) : bytes :=
  frame (Crypto.passwordBuffer key) ++ data.

Definition decrypt (key : Crypto.CryptoKey) (iv data : bytes)
  : option bytes :=
  strip (frame (Crypto.passwordBuffer key)) data.

End ModelCommitting.

(** ** One byte of the entropy source *)

(** The source [g] with the byte at position [i] of the next draw set to
    [v]. *)
Definition with_byte (g : rng) (i : nat) (v : byte) : rng :=
  {| source := fun k => if (k =? drawn g + i)%nat then v else source g k;
     drawn := drawn g |}.

(** The character at position [i] of the password
    [generateRandomPassword] returns on the source [g]. *)
Definition password_char (g : rng) (i : nat) : option N :=
  match Home.generateRandomPassword g with
  | Ok (password, _) => nth_error password i
  | Throw _ => None
  end.

(** ** String methods used by the worker and the pages *)

(** [s.startsWith(prefix)] and [s.endsWith(suffix)]. *)
Definition startsWith (s prefix : jsstring) : bool :=
  bool_decide (firstn (List.length prefix) s = prefix).

Definition endsWith (s suffix : jsstring) : bool :=
  bool_decide (skipn (List.length s - List.length suffix) s = suffix).

(** [s.split(sep)] for a separator of one character: the pieces between
    the separators, in order; never the empty array. *)
Fixpoint split (sep : N) (s : jsstring) : list jsstring :=
  match s with
  | [] => [[]]
  | c :: rest =>
      if c =? sep then [] :: split sep rest
      else
        match split sep rest with
        | part :: parts => (c :: part) :: parts
        | [] => [[c]]
        end
  end.

(** ** The reader's page ([src/ViewNote.tsx]) *)

Module ViewNote.

(** What the page shows once loading is over: an error, or the decrypted
    note. *)
Inductive View :=
| Failed (error : jsstring)
| Shown (decryptedContent : jsstring).

Definition fetchUrl (workerUrl id : jsstring) : jsstring :=
  match workerUrl with
  | [] => js "/fetch/" ++ id
  | _ :: _ => workerUrl ++ js "/fetch/" ++ id
  end.

Section Fetch.

Variable aes_gcm_decrypt : Crypto.CryptoKey -> bytes -> bytes -> option bytes.

(** [import.meta.env.VITE_WORKERS_URL || ''] *)
Variable workerUrl : jsstring.

(** The browser's [fetch] with method [GET], over the state of whatever
    answers it; it throws when no response arrives. *)
Variable World : Type.
Variable http_get : jsstring -> World -> result Http.Response * World.

(** [fetchAndDecrypt] for the route parameter [idKey], which is
    [undefined] when the route has none.  Every exception in the [try]
    block, a field of the response that is missing included, ends in the
    same error. *)
Definition fetchAndDecrypt (idKey : option jsstring) (w : World)
  : View * World :=
  match idKey with
  | None | Some [] => (Failed (js "Invalid URL format"), w)
  | Some idKey =>
      match split TILDE idKey with
      | [id; key] =>
          let failed :=
            Failed
              (js "Failed to decrypt note. The key might be incorrect.") in
          match http_get (fetchUrl workerUrl id) w with
          | (Throw _, w) => (failed, w)
          | (Ok response, w) =>
              if negb (Http.ok response) then
                if Http.status response =? 404
                then (Failed (js "Note not found or has expired"), w)
                else (Failed (js "Failed to fetch note"), w)
              else
                match Http.data response with
                | Some {| Http.cipher_text := Some cipher_text;
                          Http.iv := Some iv |} =>
                    match
                      Crypto.decryptText aes_gcm_decrypt cipher_text iv key
                    with
                    | Ok decrypted => (Shown decrypted, w)
                    | Throw _ => (failed, w)
                    end
                | _ => (failed, w)
                end
          end
      | _ =>
          (Failed (js "Invalid URL format. Expected format: /{id}~{key}"),
           w)
      end
  end.

End Fetch.

End ViewNote.

(** ** CORS headers of the worker ([workers/src/index.ts]) *)

Module Cors.

(** The allow-list as configured. *)
Definition ALLOW_ORIGINS : list jsstring := [js "*"].

(** The headers [getCorsHeaders] returns. *)
Record Headers := {
  Access_Control_Allow_Origin : jsstring;
  Access_Control_Allow_Methods : jsstring;
  Access_Control_Allow_Headers : jsstring
}.

Section Origins.

(** [new URL(origin).hostname], nothing when the constructor throws. *)
Variable hostname : jsstring -> option jsstring.

(** The allow-list the two functions read; the file sets it to
    [ALLOW_ORIGINS] and documents lists of domains as the alternative. *)
Variable allow_origins : list jsstring.

Definition includes (l : list jsstring) (x : jsstring) : bool :=
  existsb (fun y => bool_decide (y = x)) l.

(** [isOriginAllowed(origin)]; [origin] is [null] when the request has no
    [Origin] header. *)
Definition isOriginAllowed (origin : option jsstring) : bool :=
  match origin with
  | None | Some [] => false
  | Some origin =>
      if includes allow_origins (js "*") then true
      else
        existsb
          (fun allowed =>
             match hostname origin with
             | Some originHost =>
                 bool_decide (originHost = allowed)
                 || endsWith originHost (js "." ++ allowed)
             | None => bool_decide (origin = allowed)
             end)
          allow_origins
  end.

(** [getCorsHeaders(request)], from the request's [Origin] header. *)
Definition getCorsHeaders (origin : option jsstring) : Headers :=
  let allowedOrigin :=
    if includes allow_origins (js "*") then js "*"
    else
      match origin with
      | Some (c :: o) =>
          if isOriginAllowed origin then c :: o
          else
            match allow_origins with
            | (_ :: _) as first :: _ => first
            | _ => js "*"
            end
      | _ =>
          match allow_origins with
          | (_ :: _) as first :: _ => first
          | _ => js "*"
          end
      end in
  {| Access_Control_Allow_Origin := allowedOrigin;
     Access_Control_Allow_Methods := js "GET, POST, OPTIONS";
     Access_Control_Allow_Headers :=
       js "Content-Type, Cache-Control, Authorization, X-Requested-With" |}.

End Origins.

End Cors.

(** ** The exported handler of the worker ([fetch(request, env, ctx)]) *)

Module Handler.

(** What the handler reads of a request: the method, the path of the URL,
    and the outcome of [request.json()], nothing when that throws (a body
    that is not JSON, or the JSON [null], whose destructuring throws). *)
Record Request := {
  method : jsstring;
  pathname : jsstring;
  json : option Worker.Request.body
}.

(** The responses: the CORS preflight, a response of one of the two
    routes, or the API description. *)
Inductive Reply :=
| Preflight
| Route (r : Worker.Response)
| Info.

Definition status (r : Reply) : N :=
  match r with
  | Preflight | Info => 200
  | Route r => Worker.status r
  end.

(** The status and the JSON body of the response built for each reply,
    as a page reads them: only the two success responses have a [data]
    object, and the body of the preflight response is empty. *)
Definition response (r : Reply) : Http.Response :=
  match r with
  | Preflight | Info => {| Http.status := 200; Http.data := None |}
  | Route (Worker.SubmitSuccess id _) =>
      {| Http.status := 200;
         Http.data :=
           Some {| Http.id := Some id; Http.cipher_text := None;
                   Http.iv := None |} |}
  | Route (Worker.FetchSuccess id cipher_text iv _) =>
      {| Http.status := 200;
         Http.data :=
           Some {| Http.id := Some id;
                   Http.cipher_text := Some cipher_text;
                   Http.iv := Some iv |} |}
  | Route (Worker.Error s) => {| Http.status := s; Http.data := None |}
  end.

(** The handler at time [now] (seconds). *)
Definition handle (now : Z) (request : Request) (g : rng) (db : Worker.DB)
  : Reply * rng * Worker.DB :=
  let path := pathname request in
  if bool_decide (method request = js "OPTIONS") then (Preflight, g, db)
  else if bool_decide (path = js "/api/submit")
          && bool_decide (method request = js "POST") then
    match json request with
    | None => (Route (Worker.Error 500), g, db)
    | Some body =>
        let '(r, g, db) := Worker.submit now body g db in (Route r, g, db)
    end
  else if startsWith path (js "/api/fetch/") then
    let id := skipn 11 path in
    let '(r, db) := Worker.fetch now id db in (Route r, g, db)
  else (Info, g, db).

(** The handler over a sequence of requests, each with the time at which
    it is handled. *)
Fixpoint serve (requests : list (Z * Request)) (g : rng) (db : Worker.DB)
  : list Reply * rng * Worker.DB :=
  match requests with
  | [] => ([], g, db)
  | (now, request) :: rest =>
      let '(r, g, db) := handle now request g db in
      let '(rs, g, db) := serve rest g db in
      (r :: rs, g, db)
  end.

(** The shape of the rows the handler creates: an id of twelve URL-safe
    characters, a non-empty [cipher_text] and [iv]. *)
Definition row_ok (id : jsstring) (r : Worker.Row) : Prop :=
  List.length id = 12%nat /\ forallb url_safe id = true
  /\ Worker.cipher_text r <> [] /\ Worker.iv r <> [].

End Handler.

(** Sample requests: a submit of [sample_body], a fetch of [sample_id] and
    a preflight. *)
Definition submit_request : Handler.Request :=
  {| Handler.method := js "POST"; Handler.pathname := js "/api/submit";
     Handler.json := Some sample_body |}.

Definition fetch_request : Handler.Request :=
  {| Handler.method := js "GET";
     Handler.pathname := js "/api/fetch/" ++ sample_id;
     Handler.json := None |}.

Definition options_request : Handler.Request :=
  {| Handler.method := js "OPTIONS"; Handler.pathname := js "/api/submit";
     Handler.json := None |}.

(** ** The pages' requests answered by the worker *)

(** A request of a page reaches the handler with the method and the JSON
    body the page gave it and the path of the URL it was sent to; the page
    reads the handler's response.  The worker's state is its entropy
    source and its table. *)
Section Wire.

(** [new URL(request.url).pathname] for the URLs the pages fetch. *)
Variable pathname : jsstring -> jsstring.

Definition worker_post (now : Z) (url : jsstring)
    (body : Worker.Request.body) (w : rng * Worker.DB)
  : result Http.Response * (rng * Worker.DB) :=
  let request :=
    {| Handler.method := js "POST"; Handler.pathname := pathname url;
       Handler.json := Some body |} in
  let '(reply, g, db) := Handler.handle now request (fst w) (snd w) in
  (Ok (Handler.response reply), (g, db)).

Definition worker_get (now : Z) (url : jsstring) (w : rng * Worker.DB)
  : result Http.Response * (rng * Worker.DB) :=
  let request :=
    {| Handler.method := js "GET"; Handler.pathname := pathname url;
       Handler.json := None |} in
  let '(reply, g, db) := Handler.handle now request (fst w) (snd w) in
  (Ok (Handler.response reply), (g, db)).

End Wire.

(** * Facts about the codecs *)

(** Linear arithmetic with division and remainder by constants. *)
Ltac dm_lia := zify; Z.to_euclidean_division_equations; lia.

(** Turn the boolean tests of a goal into cases on their propositions. *)
Ltac no_test a :=
  lazymatch a with
  | context [if _ then _ else _] => fail
  | _ => idtac
  end.
Ltac cases_bool :=
  repeat (match goal with
          | |- context [N.ltb ?a ?b] => no_test a; destruct (N.ltb_spec a b)
          | |- context [N.leb ?a ?b] => no_test b; destruct (N.leb_spec a b)
          | |- context [N.eqb ?a ?b] => no_test a; destruct (N.eqb_spec a b)
          end; cbn [andb orb negb]; cbv iota zeta).

(** Induction on lists three elements at a time. *)
Lemma list_ind3 {A} (P : list A -> Prop) :
  P [] -> (forall a, P [a]) -> (forall a b, P [a; b]) ->
  (forall a b c l, P l -> P (a :: b :: c :: l)) ->
  forall l, P l.
Proof.
  intros H0 H1 H2 H3. fix IH 1.
  intros [|a [|b [|c l]]];
    [apply H0 | apply H1 | apply H2 | apply H3, IH].
Qed.

Lemma to_N_lt (b : byte) : Byte.to_N b < 256.
Proof. pose proof (Byte.to_N_bounded b). lia. Qed.

Lemma byte_of_to_N (b : byte) : byte_of_N (Byte.to_N b) = b.
Proof.
  unfold byte_of_N. rewrite N.mod_small by apply to_N_lt.
  now rewrite Byte.of_to_N.
Qed.

Lemma to_N_byte_of_N (n : N) : Byte.to_N (byte_of_N n) = n mod 256.
Proof.
  unfold byte_of_N.
  destruct (Byte.of_N (n mod 256)) as [b|] eqn:E.
  - now apply Byte.to_of_N.
  - apply Byte.of_N_None_iff in E.
    pose proof (N.mod_lt n 256). lia.
Qed.

Module Base64Facts.
Import Base64.

Lemma sextet_char (s : N) : s < 64 -> sextet_of_char (char_of_sextet s) = s.
Proof.
  intros Hs. unfold sextet_of_char, char_of_sextet, PLUS, SLASH.
  cases_bool; lia.
Qed.

Lemma char_alphabet (s : N) : s < 64 -> is_alphabet (char_of_sextet s) = true.
Proof.
  intros Hs. unfold is_alphabet, char_of_sextet, PLUS, SLASH.
  cases_bool; try reflexivity; lia.
Qed.

Lemma char_not_equals (s : N) :
  s < 64 -> (char_of_sextet s =? EQUALS) = false.
Proof.
  intros Hs. unfold char_of_sextet, PLUS, SLASH, EQUALS.
  cases_bool; try reflexivity; lia.
Qed.

Lemma char_not_whitespace (s : N) :
  s < 64 -> is_whitespace (char_of_sextet s) = false.
Proof.
  intros Hs. unfold is_whitespace, char_of_sextet, PLUS, SLASH.
  cases_bool; try reflexivity; lia.
Qed.

Lemma from_to_url (s : N) :
  s < 64 -> from_url (to_url (char_of_sextet s)) = char_of_sextet s.
Proof.
  intros Hs.
  unfold from_url, to_url, char_of_sextet, PLUS, MINUS, SLASH, UNDERSCORE.
  cbv zeta. cases_bool; try reflexivity; lia.
Qed.

Lemma to_url_not_equals (s : N) :
  s < 64 -> (to_url (char_of_sextet s) =? EQUALS) = false.
Proof.
  intros Hs.
  unfold to_url, char_of_sextet, PLUS, MINUS, SLASH, UNDERSCORE, EQUALS.
  cbv zeta. cases_bool; try reflexivity; lia.
Qed.

Lemma replace_twice_to_url (s : jsstring) :
  replace_char SLASH UNDERSCORE (replace_char PLUS MINUS s) = map to_url s.
Proof. unfold replace_char. now rewrite map_map. Qed.

Lemma replace_twice_from_url (s : jsstring) :
  replace_char UNDERSCORE SLASH (replace_char MINUS PLUS s) = map from_url s.
Proof. unfold replace_char. now rewrite map_map. Qed.

(** Side conditions on sextets computed from octets. *)
Ltac octets :=
  repeat match goal with
    | b : byte |- _ =>
        lazymatch goal with
        | _ : Byte.to_N b < 256 |- _ => fail
        | _ => pose proof (to_N_lt b)
        end
    end.
Ltac sextet := octets; dm_lia.

Lemma length4_mod {A} (a b c d : A) (l : list A) :
  (length (a :: b :: c :: d :: l) mod 4 = length l mod 4)%nat.
Proof. cbn [length]. dm_lia. Qed.

Lemma binary_all_octets (b : bytes) :
  forallb (fun c => c <=? 255) (binary_of_bytes b) = true.
Proof.
  apply forallb_forall. intros c Hc. apply in_map_iff in Hc.
  destruct Hc as (x & <- & _). apply N.leb_le, Byte.to_N_bounded.
Qed.

Lemma url_of_encode (b : bytes) :
  remove_char EQUALS (map to_url (encode (binary_of_bytes b))) = url_nopad b.
Proof.
  unfold url_nopad, remove_char, binary_of_bytes.
  induction b as [|x|x y|x y z b IH] using list_ind3;
    cbn [map encode encode_nopad List.filter];
    rewrite ?to_url_not_equals by sextet; cbn [negb];
    try reflexivity.
  now rewrite IH.
Qed.

Lemma from_url_nopad (b : bytes) :
  map from_url (url_nopad b) = encode_nopad (binary_of_bytes b).
Proof.
  unfold url_nopad, binary_of_bytes.
  induction b as [|x|x y|x y z b IH] using list_ind3;
    cbn [map encode_nopad]; rewrite ?from_to_url by sextet;
    try reflexivity.
  now rewrite IH.
Qed.

Lemma pad_loop_4 (fuel : nat) (a b c d : N) (s : jsstring) :
  pad_loop fuel (a :: b :: c :: d :: s) = a :: b :: c :: d :: pad_loop fuel s.
Proof.
  revert s. induction fuel as [|fuel IH]; intros s; [reflexivity|].
  cbn [pad_loop]. rewrite length4_mod.
  destruct (length s mod 4 =? 0)%nat; [reflexivity|].
  change ((a :: b :: c :: d :: s) ++ [EQUALS])
    with (a :: b :: c :: d :: (s ++ [EQUALS])).
  apply IH.
Qed.

Lemma pad_loop_nopad (l : list N) : pad_loop 3 (encode_nopad l) = encode l.
Proof.
  induction l as [|x|x y|x y z l IH] using list_ind3; try reflexivity.
  cbn [encode encode_nopad]. now rewrite pad_loop_4, IH.
Qed.

Lemma encode_no_whitespace (b : bytes) :
  List.filter (fun c => negb (is_whitespace c)) (encode (binary_of_bytes b))
  = encode (binary_of_bytes b).
Proof.
  unfold binary_of_bytes.
  induction b as [|x|x y|x y z b IH] using list_ind3;
    cbn [map encode List.filter];
    rewrite ?char_not_whitespace by sextet; cbn [negb];
    try reflexivity.
  now rewrite IH.
Qed.

Lemma encode_length (l : list N) : (length (encode l) mod 4 = 0)%nat.
Proof.
  induction l as [|x|x y|x y z l IH] using list_ind3; try reflexivity.
  cbn [encode]. now rewrite length4_mod.
Qed.

Lemma encode_nopad_length_mod (l : list N) :
  (length (encode_nopad l) mod 4 =? 1)%nat = false.
Proof.
  induction l as [|x|x y|x y z l IH] using list_ind3; try reflexivity.
  cbn [encode_nopad]. now rewrite length4_mod.
Qed.

Lemma strip_padding_encode (b : bytes) :
  strip_padding (encode (binary_of_bytes b))
  = encode_nopad (binary_of_bytes b).
Proof.
  unfold binary_of_bytes.
  induction b as [|x|x y|x y z b IH] using list_ind3;
    cbn [map encode encode_nopad strip_padding];
    rewrite ?char_not_equals by sextet; rewrite ?N.eqb_refl;
    cbn [andb]; try reflexivity.
  now rewrite IH.
Qed.

Lemma encode_nopad_alphabet (b : bytes) :
  forallb is_alphabet (encode_nopad (binary_of_bytes b)) = true.
Proof.
  unfold binary_of_bytes.
  induction b as [|x|x y|x y z b IH] using list_ind3;
    cbn [map encode_nopad forallb];
    rewrite ?char_alphabet by sextet; cbn [andb];
    try reflexivity.
  exact IH.
Qed.

Lemma decode_encode_nopad (b : bytes) :
  decode (encode_nopad (binary_of_bytes b)) = binary_of_bytes b.
Proof.
  unfold binary_of_bytes.
  induction b as [|x|x y|x y z b IH] using list_ind3;
    cbn [map encode_nopad decode]; cbv zeta;
    rewrite ?sextet_char by sextet;
    try reflexivity.
  - f_equal. sextet.
  - f_equal; [sextet|]. f_equal. sextet.
  - rewrite IH. f_equal; [sextet|]. f_equal; [sextet|]. f_equal. sextet.
Qed.

Lemma atob_encode (b : bytes) :
  atob (encode (binary_of_bytes b)) = Ok (binary_of_bytes b).
Proof.
  unfold atob. rewrite encode_no_whitespace. cbv zeta.
  rewrite encode_length. cbn [Nat.eqb].
  rewrite strip_padding_encode, encode_nopad_length_mod.
rewrite encode_nopad_alphabet.
  cbn [negb]. now rewrite decode_encode_nopad.
Qed.

End Base64Facts.

(** [base64urlEncode] never throws; its value is the unpadded URL form. *)
Lemma base64urlEncode_value (b : bytes) :
  base64urlEncode b = Ok (url_nopad b).
Proof.
  unfold base64urlEncode, Base64.btoa. cbv zeta.
  rewrite Base64Facts.binary_all_octets. cbn [bind].
  now rewrite Base64Facts.replace_twice_to_url, Base64Facts.url_of_encode.
Qed.

Lemma map_byte_of_binary (b : bytes) : map byte_of_N (binary_of_bytes b) = b.
Proof.
  unfold binary_of_bytes. rewrite map_map.
  induction b as [|x b IH]; [reflexivity|].
  cbn [map]. now rewrite byte_of_to_N, IH.
Qed.

(** Decoding the unpadded URL form gives the octets back. *)
Lemma base64urlDecode_url_nopad (b : bytes) :
  base64urlDecode (url_nopad b) = Ok b.
Proof.
  unfold base64urlDecode. cbv zeta.
  rewrite Base64Facts.replace_twice_from_url, Base64Facts.from_url_nopad.
  rewrite Base64Facts.pad_loop_nopad, Base64Facts.atob_encode. cbn [bind].
  now rewrite map_byte_of_binary.
Qed.

Module EncodingFacts.
Import Encoding.

Lemma lead_1 (b : N) : b <= 127 -> lead b = (initial, [b]).
Proof. intros H. unfold lead. now apply N.leb_le in H as ->. Qed.

Lemma lead_2 (b : N) :
  194 <= b <= 223 ->
  lead b = ({| code_point := b mod 32; bytes_seen := 0; bytes_needed := 1;
               lower_boundary := 128; upper_boundary := 191 |}, []).
Proof.
  intros [H1 H2]. unfold lead.
  replace (b <=? 127) with false by (symmetry; apply N.leb_gt; lia).
  apply N.leb_le in H1 as ->. now apply N.leb_le in H2 as ->.
Qed.

Lemma lead_3 (b : N) :
  224 <= b <= 239 ->
  lead b = ({| code_point := b mod 16; bytes_seen := 0; bytes_needed := 2;
               lower_boundary := if b =? 224 then 160 else 128;
               upper_boundary := if b =? 237 then 159 else 191 |}, []).
Proof.
  intros [H1 H2]. unfold lead.
  replace (b <=? 127) with false by (symmetry; apply N.leb_gt; lia).
  replace (194 <=? b) with true by (symmetry; apply N.leb_le; lia).
  replace (b <=? 223) with false by (symmetry; apply N.leb_gt; lia).
  apply N.leb_le in H1 as ->. now apply N.leb_le in H2 as ->.
Qed.

Lemma lead_4 (b : N) :
  240 <= b <= 244 ->
  lead b = ({| code_point := b mod 8; bytes_seen := 0; bytes_needed := 3;
               lower_boundary := if b =? 240 then 144 else 128;
               upper_boundary := if b =? 244 then 143 else 191 |}, []).
Proof.
  intros [H1 H2]. unfold lead.
  replace (b <=? 127) with false by (symmetry; apply N.leb_gt; lia).
  replace (194 <=? b) with true by (symmetry; apply N.leb_le; lia).
  replace (b <=? 223) with false by (symmetry; apply N.leb_gt; lia).
  replace (224 <=? b) with true by (symmetry; apply N.leb_le; lia).
  replace (b <=? 239) with false by (symmetry; apply N.leb_gt; lia).
  apply N.leb_le in H1 as ->. now apply N.leb_le in H2 as ->.
Qed.

(** A continuation byte within the boundaries: the last one of its
    sequence, or one before the last. *)
Lemma step_last (cp seen needed lo hi b : N) :
  needed <> 0 -> seen + 1 = needed -> lo <= b <= hi ->
  step {| code_point := cp; bytes_seen := seen; bytes_needed := needed;
          lower_boundary := lo; upper_boundary := hi |} b
  = (initial, [cp * 64 + b mod 64]).
Proof.
  intros Hn Hs [H1 H2]. unfold step.
  cbn [bytes_needed lower_boundary upper_boundary code_point bytes_seen].
  apply N.eqb_neq in Hn as ->. apply N.eqb_eq in Hs as ->.
  replace (b <? lo) with false by (symmetry; apply N.ltb_ge; lia).
  replace (hi <? b) with false by (symmetry; apply N.ltb_ge; lia).
  reflexivity.
Qed.

Lemma step_more (cp seen needed lo hi b : N) :
  needed <> 0 -> seen + 1 <> needed -> lo <= b <= hi ->
  step {| code_point := cp; bytes_seen := seen; bytes_needed := needed;
          lower_boundary := lo; upper_boundary := hi |} b
  = ({| code_point := cp * 64 + b mod 64; bytes_seen := seen + 1;
        bytes_needed := needed;
        lower_boundary := 128; upper_boundary := 191 |}, []).
Proof.
  intros Hn Hs [H1 H2]. unfold step.
  cbn [bytes_needed lower_boundary upper_boundary code_point bytes_seen].
  apply N.eqb_neq in Hn as ->. apply N.eqb_neq in Hs as ->.
  replace (b <? lo) with false by (symmetry; apply N.ltb_ge; lia).
  replace (hi <? b) with false by (symmetry; apply N.ltb_ge; lia).
  reflexivity.
Qed.

Lemma step_initial (b : N) : step initial b = lead b.
Proof. reflexivity. Qed.

Lemma run_cons (d : decoder) (b : N) (rest : list N) :
  run d (b :: rest) = (step d b).2 ++ run (step d b).1 rest.
Proof. cbn [run]. now destruct (step d b). Qed.

(** The decoder reads the encoding of a scalar value back, and is in its
    initial state afterwards. *)
Lemma run_encode_scalar (c : N) (rest : list N) :
  scalar_value c ->
  run initial (utf8_encode_scalar c ++ rest) = c :: run initial rest.
Proof.
  intros Hc. unfold scalar_value in Hc. unfold utf8_encode_scalar.
  destruct (N.ltb_spec c 128) as [H1|H1];
    [|destruct (N.ltb_spec c 2048) as [H2|H2];
      [|destruct (N.ltb_spec c 65536) as [H3|H3]]]; cbn [app].
  - rewrite run_cons, step_initial, lead_1 by lia. reflexivity.
  - rewrite run_cons, step_initial, lead_2 by dm_lia. cbn [fst snd app].
    rewrite run_cons, step_last by dm_lia.
    cbn [fst snd app]. f_equal. dm_lia.
  - rewrite run_cons, step_initial, lead_3 by dm_lia. cbn [fst snd app].
    rewrite run_cons, step_more;
      [|lia|lia|destruct (N.eqb_spec (224 + c / 4096) 224);
                destruct (N.eqb_spec (224 + c / 4096) 237); dm_lia].
    cbn [fst snd app].
    rewrite run_cons, step_last by dm_lia.
    cbn [fst snd app]. f_equal. dm_lia.
  - rewrite run_cons, step_initial, lead_4 by dm_lia. cbn [fst snd app].
    rewrite run_cons, step_more;
      [|lia|lia|destruct (N.eqb_spec (240 + c / 262144) 240);
                destruct (N.eqb_spec (240 + c / 262144) 244); dm_lia].
    cbn [fst snd app].
    rewrite run_cons, step_more by dm_lia.
    cbn [fst snd app].
    rewrite run_cons, step_last by dm_lia.
    cbn [fst snd app]. f_equal. dm_lia.
Qed.

Lemma encode_scalar_octets (c : N) :
  scalar_value c -> Forall (fun x => x < 256) (utf8_encode_scalar c).
Proof.
  intros Hc. unfold scalar_value in Hc. unfold utf8_encode_scalar.
  destruct (N.ltb_spec c 128); [|destruct (N.ltb_spec c 2048);
    [|destruct (N.ltb_spec c 65536)]];
    repeat (constructor; [dm_lia|]); constructor.
Qed.

Lemma run_encode (cs : list N) :
  Forall scalar_value cs -> run initial (flat_map utf8_encode_scalar cs) = cs.
Proof.
  induction 1 as [|c cs Hc _ IH]; [reflexivity|].
  cbn [flat_map]. now rewrite run_encode_scalar, IH.
Qed.

Lemma encode_octets (cs : list N) :
  Forall scalar_value cs ->
  Forall (fun x => x < 256) (flat_map utf8_encode_scalar cs).
Proof.
  induction 1 as [|c cs Hc _ IH]; [constructor|].
  cbn [flat_map]. apply Forall_app. split; [|exact IH].
  now apply encode_scalar_octets.
Qed.

Lemma to_N_of_octets (l : list N) :
  Forall (fun x => x < 256) l -> map Byte.to_N (map byte_of_N l) = l.
Proof.
  induction 1 as [|x l Hx _ IH]; [reflexivity|].
  cbn [map]. rewrite to_N_byte_of_N, N.mod_small, IH by exact Hx.
  reflexivity.
Qed.

Lemma is_high_true (c : N) : is_high c = true <-> 55296 <= c <= 56319.
Proof. unfold is_high. rewrite andb_true_iff, !N.leb_le. reflexivity. Qed.

Lemma is_high_false (c : N) : is_high c = false <-> c < 55296 \/ 56319 < c.
Proof. unfold is_high. rewrite andb_false_iff, !N.leb_gt. reflexivity. Qed.

Lemma is_low_true (c : N) : is_low c = true <-> 56320 <= c <= 57343.
Proof. unfold is_low. rewrite andb_true_iff, !N.leb_le. reflexivity. Qed.

Lemma is_low_false (c : N) : is_low c = false <-> c < 56320 \/ 57343 < c.
Proof. unfold is_low. rewrite andb_false_iff, !N.leb_gt. reflexivity. Qed.

(** Induction following [to_scalar_values]: one or two code units at a
    time. *)
Lemma list_ind2 {A} (P : list A -> Prop) :
  P [] -> (forall a, P [a]) ->
  (forall a b l, P l -> P (b :: l) -> P (a :: b :: l)) ->
  forall l, P l.
Proof.
  intros H0 H1 H2. fix IH 1. intros [|a l1]; [apply H0|].
  pose proof (IH l1) as Hl1.
  destruct l1 as [|b l]; [apply H1|].
  apply H2; [apply IH | exact Hl1].
Qed.

Lemma code_units_pair (a b : N) :
  55296 <= a <= 56319 -> 56320 <= b <= 57343 ->
  code_units (65536 + (a - 55296) * 1024 + (b - 56320)) = [a; b].
Proof.
  intros Ha Hb. unfold code_units.
  replace (_ <? 65536) with false by (symmetry; apply N.ltb_ge; lia).
  f_equal; [dm_lia|]. f_equal. dm_lia.
Qed.

Lemma to_scalar_values_cons (c : N) (rest : jsstring) :
  to_scalar_values (c :: rest)
  = if is_high c then
      match rest with
      | d :: rest' =>
          if is_low d
          then (65536 + (c - 55296) * 1024 + (d - 56320))
               :: to_scalar_values rest'
          else REPLACEMENT :: to_scalar_values rest
      | [] => [REPLACEMENT]
      end
    else if is_low c then REPLACEMENT :: to_scalar_values rest
    else c :: to_scalar_values rest.
Proof. reflexivity. Qed.

Lemma well_formed_cons (c : N) (rest : jsstring) :
  well_formed (c :: rest)
  = if is_high c then
      match rest with
      | d :: rest' => is_low d && well_formed rest'
      | [] => false
      end
    else negb (is_low c) && (c <? 65536) && well_formed rest.
Proof. reflexivity. Qed.

(** On a well-formed string the conversion to scalar values loses nothing. *)
Lemma scalar_values_well_formed (s : jsstring) :
  well_formed s = true ->
  Forall scalar_value (to_scalar_values s)
  /\ flat_map code_units (to_scalar_values s) = s.
Proof.
  induction s as [|a|a b l IHl IHbl] using list_ind2.
  - intros _. split; [constructor|reflexivity].
  - cbn [well_formed to_scalar_values].
    destruct (is_high a) eqn:Hh; [discriminate|].
    destruct (is_low a) eqn:Hl; [discriminate|].
    cbn [negb andb]. rewrite andb_true_r. intros Ha%N.ltb_lt.
    apply is_high_false in Hh. apply is_low_false in Hl.
    split.
    + constructor; [|constructor]. unfold scalar_value. lia.
    + cbn [flat_map]. unfold code_units.
      apply N.ltb_lt in Ha as ->. reflexivity.
  - rewrite well_formed_cons, to_scalar_values_cons.
    destruct (is_high a) eqn:Hh.
    + intros [Hb Hw]%andb_true_iff. rewrite Hb.
      destruct (IHl Hw) as [IH1 IH2].
      apply is_high_true in Hh. apply is_low_true in Hb.
      split.
      * constructor; [|exact IH1]. unfold scalar_value. lia.
      * cbn [flat_map]. rewrite code_units_pair, IH2 by assumption.
        reflexivity.
    + destruct (is_low a) eqn:Hl; [discriminate|].
      cbn [negb andb]. intros [Ha%N.ltb_lt Hw]%andb_true_iff.
      destruct (IHbl Hw) as [IH1 IH2].
      apply is_high_false in Hh. apply is_low_false in Hl.
      split.
      * constructor; [|exact IH1]. unfold scalar_value. lia.
      * cbn [flat_map]. rewrite IH2. unfold code_units.
        apply N.ltb_lt in Ha as ->. reflexivity.
Qed.

Lemma strip_bom_scalar_values (s : jsstring) :
  no_leading_bom s -> strip_bom (to_scalar_values s) = to_scalar_values s.
Proof.
  destruct s as [|a l]; [reflexivity|].
  cbn [no_leading_bom to_scalar_values]. intros Ha.
  destruct (is_high a) eqn:Hh.
  - apply is_high_true in Hh. destruct l as [|b l]; [reflexivity|].
    destruct (is_low b); cbn [strip_bom]; unfold BOM, REPLACEMENT.
    + replace (_ =? 65279) with false
        by (symmetry; apply N.eqb_neq; lia).
      reflexivity.
    + reflexivity.
  - destruct (is_low a); cbn [strip_bom]; [reflexivity|].
    apply N.eqb_neq in Ha as ->. reflexivity.
Qed.

Lemma run_encode_bytes (s : jsstring) :
  well_formed s = true ->
  run initial (map Byte.to_N (encode s)) = to_scalar_values s.
Proof.
  intros Hw. apply scalar_values_well_formed in Hw as [Hs _].
  unfold encode. rewrite to_N_of_octets by now apply encode_octets.
  now apply run_encode.
Qed.

(** [TextDecoder] after [TextEncoder] on a well-formed string that does not
    start with U+FEFF. *)
Lemma decode_encode (s : jsstring) :
  well_formed s = true -> no_leading_bom s -> decode (encode s) = s.
Proof.
  intros Hw Hb. unfold decode. rewrite run_encode_bytes by exact Hw.
  rewrite strip_bom_scalar_values by exact Hb.
  now apply scalar_values_well_formed.
Qed.

(** A leading U+FEFF is lost. *)
Lemma decode_encode_bom (s : jsstring) :
  well_formed s = true -> decode (encode (BOM :: s)) = s.
Proof.
  intros Hw. unfold decode.
  rewrite run_encode_bytes by (cbn [well_formed]; exact Hw).
  change (to_scalar_values (BOM :: s)) with (BOM :: to_scalar_values s).
  cbn [strip_bom]. rewrite N.eqb_refl.
  now apply scalar_values_well_formed.
Qed.

End EncodingFacts.

(** * The random source, identifiers and passwords *)

Lemma getRandomValues_value (n : N) (g : rng) :
  n <= 65536 ->
  getRandomValues n g
  = Ok (map (source g) (seq (drawn g) (N.to_nat n)),
        {| source := source g; drawn := drawn g + N.to_nat n |}).
Proof.
  intros Hn. unfold getRandomValues.
  replace (65536 <? n) with false by (symmetry; apply N.ltb_ge; lia).
  reflexivity.
Qed.

Lemma getRandomValues_quota (n : N) (g : rng) :
  65536 < n -> getRandomValues n g = Throw QuotaExceededError.
Proof.
  intros Hn. unfold getRandomValues. now apply N.ltb_lt in Hn as ->.
Qed.

(** The pipeline [btoa(...).replace(+).replace(/).replace(=)] shared by
    [base64urlEncode] and [generateId]. *)
Lemma btoa_binary (b : bytes) :
  Base64.btoa (binary_of_bytes b) = Ok (Base64.encode (binary_of_bytes b)).
Proof. unfold Base64.btoa. now rewrite Base64Facts.binary_all_octets. Qed.

Lemma url_pipeline (b : bytes) :
  remove_char Base64.EQUALS
    (replace_char Base64.SLASH Base64.UNDERSCORE
       (replace_char Base64.PLUS Base64.MINUS
          (Base64.encode (binary_of_bytes b))))
  = url_nopad b.
Proof.
  now rewrite Base64Facts.replace_twice_to_url, Base64Facts.url_of_encode.
Qed.

Lemma encode_nopad_length (l : list N) :
  List.length (Base64.encode_nopad l) = ((4 * List.length l + 2) / 3)%nat.
Proof.
  induction l as [|x|x y|x y z l IH] using list_ind3; try reflexivity.
  cbn [Base64.encode_nopad List.length] in *. rewrite IH. dm_lia.
Qed.

Lemma url_nopad_length (b : bytes) :
  List.length (url_nopad b) = ((4 * List.length b + 2) / 3)%nat.
Proof.
  unfold url_nopad, binary_of_bytes.
  now rewrite length_map, encode_nopad_length, length_map.
Qed.

Lemma to_url_safe (s : N) :
  s < 64 -> url_safe (to_url (Base64.char_of_sextet s)) = true.
Proof.
  intros Hs.
  unfold url_safe, to_url, Base64.char_of_sextet, Base64.PLUS, Base64.MINUS,
    Base64.SLASH, Base64.UNDERSCORE.
  cbv zeta. cases_bool; try reflexivity; lia.
Qed.

Lemma url_nopad_safe (b : bytes) : forallb url_safe (url_nopad b) = true.
Proof.
  unfold url_nopad, binary_of_bytes.
  induction b as [|x|x y|x y z b IH] using list_ind3;
    cbn [map Base64.encode_nopad forallb];
    rewrite ?to_url_safe by Base64Facts.sextet; cbn [andb];
    try reflexivity.
  exact IH.
Qed.

Lemma forallb_firstn {A} (f : A -> bool) (n : nat) (l : list A) :
  forallb f l = true -> forallb f (firstn n l) = true.
Proof.
  revert l. induction n as [|n IH]; intros [|x l]; try reflexivity.
  cbn [firstn forallb]. intros [Hx Hl]%andb_true_iff.
  now rewrite Hx, IH.
Qed.

(** What [generateId] computes when the request is within the quota. *)
Lemma generateId_value (length : N) (g : rng) :
  Worker.ceil_3_4 length <= 65536 ->
  let n := N.to_nat (Worker.ceil_3_4 length) in
  let bytes := map (source g) (seq (drawn g) n) in
  Worker.generateId length g
  = Ok (firstn (N.to_nat length) (url_nopad bytes),
        {| source := source g; drawn := drawn g + n |}).
Proof.
  intros Hq. cbv zeta. unfold Worker.generateId.
  rewrite getRandomValues_value by exact Hq. cbn [bind].
  rewrite btoa_binary. cbn [bind]. now rewrite url_pipeline.
Qed.

(** C9: for every byte buffer [b], [base64urlEncode(b)] returns a string
    and [base64urlDecode] of that string returns the bytes of [b]. *)
Theorem base64url_decode_encode (b : bytes) :
  exists s, base64urlEncode b = Ok s /\ base64urlDecode s = Ok b.
Proof.
  exists (url_nopad b). split.
  - apply base64urlEncode_value.
  - apply base64urlDecode_url_nopad.
Qed.

(** The loop [while (str.length % 4) str += '='] of [base64urlDecode] ends
    after at most three rounds, with a length that is a multiple of four. *)
Theorem base64urlDecode_padding_ends (str : jsstring) :
  (List.length (pad_loop 3 str) mod 4 = 0)%nat.
Proof.
  cbn [pad_loop].
  repeat match goal with
    | |- context [(?n =? 0)%nat] => destruct (Nat.eqb_spec n 0); [assumption|]
    end.
  repeat rewrite length_app in *. cbn [List.length] in *. dm_lia.
Qed.




Lemma chars_url_safe : forallb url_safe Home.chars = true.
Proof. reflexivity. Qed.

Lemma chars_length : List.length Home.chars = 64%nat.
Proof. reflexivity. Qed.

Lemma url_safe_not_tilde (s : jsstring) :
  forallb url_safe s = true -> ~ In TILDE s.
Proof.
  intros H Hin. rewrite forallb_forall in H. apply H in Hin. discriminate.
Qed.

(** C10: [generateRandomPassword] always returns a string of sixteen
    characters, each one of the 64 characters [A-Z], [a-z], [0-9], ['-'],
    ['_'] of [chars]; none needs escaping in a URL and none is ['~']. *)
Theorem generateRandomPassword_shape (g : rng) :
  exists (password : jsstring) (g' : rng),
    Home.generateRandomPassword g = Ok (password, g')
    /\ List.length password = 16%nat
    /\ Forall (fun c => In c Home.chars) password
    /\ List.length Home.chars = 64%nat
    /\ forallb url_safe password = true
    /\ ~ In TILDE password.
Proof.
  set (password :=
         map (fun v => Home.char_at Home.chars
                         (Byte.to_N v mod N.of_nat (List.length Home.chars)))
           (map (source g) (seq (drawn g) (N.to_nat Home.length)))).
  assert (Hin : Forall (fun c => In c Home.chars) password).
  { apply List.Forall_forall. intros c Hc. apply in_map_iff in Hc.
    destruct Hc as (v & <- & _). unfold Home.char_at. apply nth_In.
    rewrite chars_length. pose proof (to_N_lt v).
    change (N.of_nat 64) with 64. dm_lia. }
  assert (Hsafe : forallb url_safe password = true).
  { apply forallb_forall. intros c Hc.
    rewrite List.Forall_forall in Hin. apply Hin in Hc.
    pose proof chars_url_safe as Hs. rewrite forallb_forall in Hs.
    now apply Hs. }
  exists password,
    {| source := source g; drawn := drawn g + N.to_nat Home.length |}.
  split; [|split; [|split; [|split; [|split]]]].
  - unfold Home.generateRandomPassword.
    rewrite getRandomValues_value by (unfold Home.length; lia).
    reflexivity.
  - unfold password. now rewrite !length_map, length_seq.
  - exact Hin.
  - exact chars_length.
  - exact Hsafe.
  - now apply url_safe_not_tilde.
Qed.

(** * Numbers: whole values below 2^53 *)

Module NumberFacts.
Import SpecFloat.
Local Open Scope Z_scope.

Abbreviation D := Number.digits.
Abbreviation canon := Number.canonical.

Lemma digits_size (p : positive) : digits2_pos p = Pos.size p.
Proof. induction p as [p IH|p IH|]; cbn; now rewrite ?IH. Qed.

Lemma D_spec (p : positive) : 2 ^ (D p - 1) <= Z.pos p < 2 ^ D p.
Proof.
  unfold Number.digits. rewrite digits_size.
  pose proof (Pos.size_gt p) as Hg. pose proof (Pos.size_le p) as Hl.
  assert (H2 : Z.pos (2 ^ Pos.size p) = 2 ^ Z.pos (Pos.size p))
    by now rewrite Pos2Z.inj_pow.
  assert (Hs : 2 ^ Z.pos (Pos.size p) = 2 * 2 ^ (Z.pos (Pos.size p) - 1)).
  { rewrite <- Z.pow_succ_r by lia. f_equal. lia. }
  lia.
Qed.

Lemma D_unique (p : positive) (d : Z) :
  2 ^ (d - 1) <= Z.pos p < 2 ^ d -> D p = d.
Proof.
  intros [Hl Hu]. pose proof (D_spec p) as [Hl' Hu'].
  assert (Hd : 0 < D p) by (unfold Number.digits; lia).
  destruct (Z.lt_trichotomy (D p) d) as [H|[H|H]]; [|exact H|].
  - assert (2 ^ D p <= 2 ^ (d - 1)) by (apply Z.pow_le_mono_r; lia). lia.
  - assert (0 <= d \/ d < 0) as [Hd0|Hd0] by lia.
    + assert (2 ^ d <= 2 ^ (D p - 1)) by (apply Z.pow_le_mono_r; lia). lia.
    + rewrite (Z.pow_neg_r 2 d) in Hu by lia. lia.
Qed.

Lemma D_mul (n sp : positive) (k : Z) :
  0 <= k -> Z.pos sp = Z.pos n * 2 ^ k -> D sp = D n + k.
Proof.
  intros Hk Hs. apply D_unique. pose proof (D_spec n) as [Hl Hu].
  assert (Hd : 0 < D n) by (unfold Number.digits; lia).
  replace (D n + k - 1) with (D n - 1 + k) by lia.
  rewrite !Z.pow_add_r by lia. rewrite Hs.
  assert (0 < 2 ^ k) by (apply Z.pow_pos_nonneg; lia). nia.
Qed.

Lemma iter_pos_iter {A} (f : A -> A) (n : positive) (x : A) :
  iter_pos f n x = Pos.iter f x n.
Proof.
  revert x. induction n as [n IH|n IH|]; intros x; cbn [iter_pos Pos.iter].
  - rewrite !IH. now rewrite <- !Pos.iter_swap.
  - now rewrite !IH.
  - reflexivity.
Qed.

(** Shifting right a multiple of [2^k] by [k] bits loses nothing. *)
Lemma shr_exact (q : positive) (k : positive) :
  iter_pos shr_1 k
    {| shr_m := Z.pos (Pos.iter xO q k); shr_r := false; shr_s := false |}
  = {| shr_m := Z.pos q; shr_r := false; shr_s := false |}.
Proof.
  rewrite iter_pos_iter. revert q.
  induction k as [|k IH] using Pos.peano_ind; intros q.
  - reflexivity.
  - rewrite (Pos.iter_succ k _ xO q), (Pos.iter_succ_r k _ shr_1).
    cbn [shr_1 orb]. apply IH.
Qed.

Lemma iter_xO_Z (q k : positive) :
  Z.pos (Pos.iter xO q k) = Z.pos q * 2 ^ Z.pos k.
Proof.
  change (Pos.iter xO q k) with (shift_pos k q).
  rewrite shift_pos_correct, Zpower_pos_nat, Zpower_nat_Z.
  rewrite positive_nat_Z. lia.
Qed.

(** Rounding a mantissa of 53 bits with an exponent in range changes
    nothing. *)
Lemma round_aux_canonical (s : bool) (m : positive) (e : Z) :
  D m = 53 -> -1074 <= e <= 971 ->
  binary_round_aux 53 1024 s (Z.pos m) e loc_Exact = S754_finite s m e.
Proof.
  intros Hd He. unfold binary_round_aux, shr_fexp, fexp, emin.
  cbn [Zdigits2 shr_record_of_loc]. fold (D m). rewrite Hd.
  replace (Z.sub (Z.max (Z.sub (Z.add 53 e) 53) (Z.sub (Z.sub 3 1024) 53)) e)
    with 0 by lia.
  cbn [shr shr_m loc_of_shr_record round_nearest_even Zdigits2
       shr_record_of_loc].
  fold (D m). rewrite Hd.
  replace (Z.sub (Z.max (Z.sub (Z.add 53 e) 53) (Z.sub (Z.sub 3 1024) 53)) e)
    with 0 by lia.
  cbn [shr shr_m].
  replace (Z.leb e (Z.sub 1024 53)) with true
    by (symmetry; apply Z.leb_le; lia).
  reflexivity.
Qed.

Lemma round_aux_shift (s : bool) (q k : positive) (e : Z) :
  D q = 53 -> -1074 <= e + Z.pos k <= 971 ->
  binary_round_aux 53 1024 s (Z.pos (Pos.iter xO q k)) e loc_Exact
  = S754_finite s q (e + Z.pos k).
Proof.
  intros Hd He.
  assert (Hdk : D (Pos.iter xO q k) = 53 + Z.pos k).
  { rewrite (D_mul q _ (Z.pos k)); [lia|lia|apply iter_xO_Z]. }
  unfold binary_round_aux, shr_fexp, fexp, emin.
  cbn [Zdigits2 shr_record_of_loc]. fold (D (Pos.iter xO q k)).
  rewrite Hdk.
  replace (Z.sub (Z.max (Z.sub (Z.add (53 + Z.pos k) e) 53)
                    (Z.sub (Z.sub 3 1024) 53)) e)
    with (Z.pos k) by lia.
  cbn [shr]. rewrite shr_exact.
  cbn [shr_m loc_of_shr_record round_nearest_even Zdigits2
       shr_record_of_loc].
  fold (D q). rewrite Hd.
  replace (Z.sub (Z.max (Z.sub (Z.add 53 (Z.add e (Z.pos k))) 53)
                    (Z.sub (Z.sub 3 1024) 53)) (Z.add e (Z.pos k)))
    with 0 by lia.
  cbn [shr shr_m].
  replace (Z.leb (Z.add e (Z.pos k)) (Z.sub 1024 53)) with true
    by (symmetry; apply Z.leb_le; lia).
  reflexivity.
Qed.

Lemma canon_mantissa (n : positive) :
  D n <= 53 ->
  Z.pos (Pos.shiftl n (Z.to_N (53 - D n))) = Z.pos n * 2 ^ (53 - D n).
Proof.
  intros Hd. destruct (53 - D n) as [|k|k] eqn:Hk; [| |lia].
  - change (Pos.shiftl n (Z.to_N 0)) with n. rewrite Z.pow_0_r. lia.
  - change (Pos.shiftl n (Z.to_N (Z.pos k))) with (Pos.iter xO n k).
    apply iter_xO_Z.
Qed.

Lemma canon_digits (n : positive) :
  D n <= 53 -> D (Pos.shiftl n (Z.to_N (53 - D n))) = 53.
Proof.
  intros Hd. rewrite (D_mul n _ (53 - D n)); [lia|lia|].
  now apply canon_mantissa.
Qed.

(** Rounding the whole value [n], given with an exponent [e <= 0], gives
    its number. *)
Lemma binary_round_exact (s : bool) (n sp : positive) (e : Z) :
  e <= 0 -> D n <= 53 -> Z.pos sp = Z.pos n * 2 ^ (- e) ->
  binary_round 53 1024 s sp e = canon s n.
Proof.
  intros He Hd Hs.
  assert (Hdn : 0 < D n) by (unfold Number.digits; lia).
  assert (Hdsp : D sp = D n - e)
    by (rewrite (D_mul n sp (- e)); [lia|lia|exact Hs]).
  pose proof (canon_mantissa n Hd) as Hq.
  pose proof (canon_digits n Hd) as Hdq.
  set (q := Pos.shiftl n (Z.to_N (53 - D n))) in *.
  unfold binary_round, shl_align, fexp, emin. fold (D sp). rewrite Hdsp.
  replace (Z.max (Z.sub (Z.add (D n - e) e) 53) (Z.sub (Z.sub 3 1024) 53))
    with (D n - 53) by lia.
  unfold Number.canonical. fold q.
  destruct (Z.sub (D n - 53) e) as [|k|k] eqn:Hk.
  - assert (sp = q) as ->.
    { apply Pos2Z.inj. rewrite Hs, Hq.
      now replace (- e) with (53 - D n) by lia. }
    rewrite round_aux_canonical by lia. f_equal. lia.
  - assert (sp = Pos.iter xO q k) as ->.
    { apply Pos2Z.inj. rewrite iter_xO_Z, Hs, Hq.
      rewrite <- Z.mul_assoc, <- Z.pow_add_r by lia.
      now replace (- e) with (53 - D n + Z.pos k) by lia. }
    rewrite round_aux_shift by lia. f_equal. lia.
  - assert (Pos.iter xO sp k = q) as ->.
    { apply Pos2Z.inj. rewrite iter_xO_Z, Hs, Hq.
      rewrite <- Z.mul_assoc, <- Z.pow_add_r by lia.
      now replace (- e + Z.pos k) with (53 - D n) by lia. }
    rewrite round_aux_canonical by lia. reflexivity.
Qed.

Lemma D_bound (n : positive) : Z.pos n < 2 ^ 53 <-> D n <= 53.
Proof.
  pose proof (D_spec n) as [Hl Hu].
  assert (Hdn : 0 < D n) by (unfold Number.digits; lia). split; intros H.
  - destruct (Z.le_gt_cases (D n) 53) as [Hc|Hc]; [exact Hc|].
    assert (2 ^ 53 <= 2 ^ (D n - 1)) by (apply Z.pow_le_mono_r; lia). lia.
  - assert (2 ^ D n <= 2 ^ 53) by (apply Z.pow_le_mono_r; lia). lia.
Qed.

Lemma of_Z_pos (n : positive) :
  Z.pos n < 2 ^ 53 -> Number.of_Z (Z.pos n) = canon false n.
Proof.
  intros H%D_bound. unfold Number.of_Z. cbn [binary_normalize].
  apply binary_round_exact; [lia|exact H|]. cbn [Z.opp]. lia.
Qed.

Lemma canon_lt (a b : positive) :
  Z.pos a < 2 ^ 53 -> Z.pos b < 2 ^ 53 ->
  Number.lt (canon false a) (canon false b) = (Z.pos a <? Z.pos b).
Proof.
  intros Ha%D_bound Hb%D_bound.
  pose proof (canon_mantissa a Ha) as Hma.
  pose proof (canon_mantissa b Hb) as Hmb.
  pose proof (D_spec a) as [Hal Hau]. pose proof (D_spec b) as [Hbl Hbu].
  assert (Hda : 0 < D a) by (unfold Number.digits; lia).
  assert (Hdb : 0 < D b) by (unfold Number.digits; lia).
  unfold Number.lt, SFltb, Number.canonical. cbn [SFcompare].
  destruct (Z.compare_spec (D a - 53) (D b - 53)) as [He|He|He];
    cbv iota.
  - match goal with
    | |- context [Pos.compare_cont Eq ?x ?y] =>
        change (Pos.compare_cont Eq x y) with (Z.pos x ?= Z.pos y)
    end.
    rewrite Hma, Hmb.
    replace (D b) with (D a) by lia.
    rewrite <- Zmult_compare_compat_r
      by (apply Z.lt_gt, Z.pow_pos_nonneg; lia).
    unfold Z.ltb. now destruct (Z.pos a ?= Z.pos b).
  - symmetry. apply Z.ltb_lt.
    assert (2 ^ D a <= 2 ^ (D b - 1)) by (apply Z.pow_le_mono_r; lia). lia.
  - symmetry. apply Z.ltb_ge.
    assert (2 ^ D b <= 2 ^ (D a - 1)) by (apply Z.pow_le_mono_r; lia). lia.
Qed.

(** On whole values from 0 to [2^53], [<] is the order of the values. *)
Lemma of_Z_lt (a b : Z) :
  0 <= a < 2 ^ 53 -> 0 <= b < 2 ^ 53 ->
  Number.lt (Number.of_Z a) (Number.of_Z b) = (a <? b).
Proof.
  intros Ha Hb.
  change (Number.of_Z 0) with (S754_zero false).
  destruct a as [|a|a]; [| |lia]; (destruct b as [|b|b]; [| |lia]).
  - reflexivity.
  - rewrite of_Z_pos by lia. reflexivity.
  - rewrite of_Z_pos by lia. reflexivity.
  - rewrite !of_Z_pos by lia. apply canon_lt; lia.
Qed.

Lemma shl_align_fst (m : positive) (e ez : Z) :
  ez <= e -> Z.pos (fst (shl_align m e ez)) = Z.pos m * 2 ^ (e - ez).
Proof.
  intros He. unfold shl_align.
  destruct (Z.sub ez e) as [|k|k] eqn:Hk; cbn [fst]; [|lia|].
  - replace (e - ez) with 0 by lia. lia.
  - rewrite iter_xO_Z. now replace (e - ez) with (Z.pos k) by lia.
Qed.

Lemma canon_add (a b : positive) :
  Z.pos a + Z.pos b < 2 ^ 53 ->
  Number.add (canon false a) (canon false b) = canon false (a + b).
Proof.
  intros Hs.
  assert (Ha : D a <= 53) by (apply D_bound; lia).
  assert (Hb : D b <= 53) by (apply D_bound; lia).
  assert (Hab : D (a + b) <= 53) by (apply D_bound; lia).
  pose proof (canon_mantissa a Ha) as Hma.
  pose proof (canon_mantissa b Hb) as Hmb.
  assert (Hda : 0 < D a) by (unfold Number.digits; lia).
  assert (Hdb : 0 < D b) by (unfold Number.digits; lia).
  unfold Number.add, Number.canonical. cbn [SFadd cond_Zopp].
  set (ma := Pos.shiftl a (Z.to_N (53 - D a))) in *.
  set (mb := Pos.shiftl b (Z.to_N (53 - D b))) in *.
  set (ez := Z.min (D a - 53) (D b - 53)).
  assert (Hez : ez <= D a - 53 /\ ez <= D b - 53 /\ ez <= 0)
    by (unfold ez; lia).
  cbn [Z.add binary_normalize].
  apply binary_round_exact; [lia|exact Hab|].
  rewrite Pos2Z.inj_add, !shl_align_fst, Hma, Hmb by lia.
  rewrite <- !Z.mul_assoc, <- !Z.pow_add_r by lia.
  replace (53 - D a + (D a - 53 - ez)) with (- ez) by lia.
  replace (53 - D b + (D b - 53 - ez)) with (- ez) by lia.
  lia.
Qed.

(** On whole values from 0 with a sum below [2^53], [+] is exact. *)
Lemma of_Z_add (a b : Z) :
  0 <= a -> 0 <= b -> a + b < 2 ^ 53 ->
  Number.add (Number.of_Z a) (Number.of_Z b) = Number.of_Z (a + b).
Proof.
  intros Ha Hb Hs.
  destruct a as [|a|a]; [| |lia]; (destruct b as [|b|b]; [| |lia]).
  - reflexivity.
  - change (0 + Z.pos b) with (Z.pos b).
    change (Number.of_Z 0) with (S754_zero false).
    rewrite of_Z_pos by lia. reflexivity.
  - change (Z.pos a + 0) with (Z.pos a).
    change (Number.of_Z 0) with (S754_zero false).
    rewrite of_Z_pos by lia. reflexivity.
  - change (Z.pos a + Z.pos b) with (Z.pos (a + b)).
    rewrite !of_Z_pos by lia. apply canon_add. lia.
Qed.
End NumberFacts.

(** * The record store: fetch and submit *)

Lemma fetch_missing (now : Z) (id : jsstring) (db : Worker.DB) :
  db !! id = None -> Worker.fetch now id db = (Worker.Error 404, db).
Proof. intros H. unfold Worker.fetch. now rewrite H. Qed.

Lemma fetch_expired (now : Z) (id : jsstring) (db : Worker.DB)
    (r : Worker.Row) :
  db !! id = Some r ->
  Number.lt (Worker.expires_at r) (Number.of_Z now) = true ->
  Worker.fetch now id db = (Worker.Error 410, delete id db).
Proof. intros H Hlt. unfold Worker.fetch. now rewrite H, Hlt. Qed.

Lemma fetch_alive (now : Z) (id : jsstring) (db : Worker.DB)
    (r : Worker.Row) :
  db !! id = Some r ->
  Number.lt (Worker.expires_at r) (Number.of_Z now) = false ->
  Worker.fetch now id db
  = (Worker.FetchSuccess id (Worker.cipher_text r) (Worker.iv r)
       (Worker.expires_at r), db).
Proof. intros H Hle. unfold Worker.fetch. now rewrite H, Hle. Qed.

(** No number is less than itself. *)
Lemma lt_irrefl (x : Number.number) : Number.lt x x = false.
Proof.
  unfold Number.lt, SpecFloat.SFltb.
  destruct x as [[]|[]| |[] m e]; cbn [SpecFloat.SFcompare];
    try reflexivity;
    now rewrite Z.compare_refl, Pos.compare_cont_refl.
Qed.

(** A fetch handled in the second [expires_at] finds the record alive. *)
Lemma fetch_at_expires_at (now : Z) (id : jsstring) (db : Worker.DB)
    (r : Worker.Row) :
  db !! id = Some r -> Worker.expires_at r = Number.of_Z now ->
  Worker.fetch now id db
  = (Worker.FetchSuccess id (Worker.cipher_text r) (Worker.iv r)
       (Worker.expires_at r), db).
Proof.
  intros H He. apply fetch_alive; [exact H|]. rewrite He. apply lt_irrefl.
Qed.

Lemma sample_db_lookup : sample_db !! sample_id = Some sample_row.
Proof. apply lookup_singleton_eq. Qed.

(** C2: the claim asks that a fetch at the instant [now = expires_at] does
    not return the record.  The row of [sample_db] has [expires_at = 1000];
    the handler, which tests [expires_at < now], answers a fetch at second
    1000 with status 200 and the record, and leaves it in the table. *)
Lemma fetch_alive_at_expires_at :
  Worker.expires_at sample_row = Number.of_Z 1000
  /\ Worker.fetch 1000 sample_id sample_db
     = (Worker.FetchSuccess sample_id (js "c0") (js "v0")
          (Number.of_Z 1000), sample_db)
  /\ Worker.status (Worker.fetch 1000 sample_id sample_db).1 = 200.
Proof.
  split; [reflexivity|].
  rewrite (fetch_at_expires_at 1000 sample_id sample_db sample_row
             sample_db_lookup eq_refl).
  split; reflexivity.
Qed.

(** The payload of the repository's test of expiry: a record submitted
    with [ttl = 1] during second 1000 and fetched during second 1001 is
    answered 200, where the test expects 410. *)
Lemma fetch_one_second_after_submit :
  exists g db,
    Worker.submit 1000
      {| Worker.Request.ttl := Some (Number.of_Z 1);
         Worker.Request.cipherText := Some (js "expireTest");
         Worker.Request.iv := Some (js "expireIV") |} sample_rng ∅
    = (Worker.SubmitSuccess sample_id (Number.of_Z 1001), g, db)
    /\ Worker.fetch 1001 sample_id db
       = (Worker.FetchSuccess sample_id (js "expireTest") (js "expireIV")
            (Number.of_Z 1001), db).
Proof.
  exists {| source := source sample_rng; drawn := 9 |},
    {[ sample_id := {| Worker.cipher_text := js "expireTest";
                       Worker.iv := js "expireIV";
                       Worker.created_at := 1000;
                       Worker.expires_at := Number.of_Z 1001 |} ]}.
  split; vm_compute; reflexivity.
Qed.



(** A fetch never changes a row other than by deleting the one fetched. *)
Lemma fetch_other (now : Z) (id other : jsstring) (db : Worker.DB) :
  other <> id -> (Worker.fetch now id db).2 !! other = db !! other.
Proof.
  intros Hne. unfold Worker.fetch.
  destruct (db !! id) as [r|]; [|reflexivity].
  destruct (Number.lt (Worker.expires_at r) (Number.of_Z now));
    [|reflexivity].
  cbn [snd]. now rewrite lookup_delete_ne.
Qed.

Lemma submit_rejected (now : Z) (body : Worker.Request.body) (g : rng)
    (db : Worker.DB) :
  Worker.not_number (Worker.Request.ttl body) = true
  \/ Worker.not_string (Worker.Request.cipherText body) = true
  \/ Worker.not_string (Worker.Request.iv body) = true ->
  Worker.submit now body g db = (Worker.Error 400, g, db).
Proof.
  intros H. unfold Worker.submit.
  destruct H as [-> | [-> | ->]]; rewrite ?orb_true_r; reflexivity.
Qed.

(** A submit that passes the presence check. *)
Lemma submit_accepted (now : Z) (body : Worker.Request.body) (g : rng)
    (db : Worker.DB) :
  Worker.not_number (Worker.Request.ttl body) = false ->
  Worker.not_string (Worker.Request.cipherText body) = false ->
  Worker.not_string (Worker.Request.iv body) = false ->
  exists ttl cipherText iv,
    Worker.Request.ttl body = Some ttl /\ Number.falsy ttl = false
    /\ Worker.Request.cipherText body = Some cipherText
    /\ Worker.Request.iv body = Some iv
    /\ Worker.submit now body g db
       = match Worker.generateId 12 g with
         | Throw _ => (Worker.Error 500, g, db)
         | Ok (id, g') =>
             match db !! id with
             | Some _ => (Worker.Error 500, g', db)
             | None =>
                 (Worker.SubmitSuccess id
                    (Number.add (Number.of_Z now) ttl), g',
                  <[id := {| Worker.cipher_text := cipherText;
                             Worker.iv := iv;
                             Worker.created_at := now;
                             Worker.expires_at :=
                               Number.add (Number.of_Z now) ttl |}]> db)
             end
         end.
Proof.
  intros Ht Hc Hi. unfold Worker.submit. rewrite Ht, Hc, Hi. cbn [orb].
  destruct body as [[t|] [c|] [i|]];
    cbn [Worker.not_number Worker.not_string Worker.Request.ttl
         Worker.Request.cipherText Worker.Request.iv] in Ht, Hc, Hi;
    try discriminate.
  cbn [Worker.Request.ttl Worker.Request.cipherText Worker.Request.iv].
  exists t, c, i. repeat split; try reflexivity. exact Ht.
Qed.

Lemma generateId_sample :
  Worker.generateId 12 sample_rng
  = Ok (sample_id, {| source := source sample_rng; drawn := 9 |}).
Proof. reflexivity. Qed.

Lemma generateId_second :
  Worker.generateId 12 {| source := source sample_rng; drawn := 9 |}
  = Ok (second_id, {| source := source sample_rng; drawn := 18 |}).
Proof. reflexivity. Qed.

(** A submit with [ttl = -5] is answered 200 and stores a row whose
    [expires_at], 995, lies before its [created_at]: at second 1000 the
    record has expired already. *)
Lemma submit_negative_ttl :
  Worker.submit 1000 negative_ttl_body sample_rng ∅
  = (Worker.SubmitSuccess sample_id (Number.of_Z 995),
     {| source := source sample_rng; drawn := 9 |},
     {[ sample_id := {| Worker.cipher_text := js "c1"; Worker.iv := js "v1";
                        Worker.created_at := 1000;
                        Worker.expires_at := Number.of_Z 995 |} ]})
  /\ Number.lt (Number.of_Z 995) (Number.of_Z 1000) = true.
Proof.
  split; [|vm_compute; reflexivity].
  destruct (submit_accepted 1000 negative_ttl_body sample_rng ∅)
    as (t & c & i & Ht & _ & Hc & Hi & ->); try (vm_compute; reflexivity).
  injection Ht as <-. injection Hc as <-. injection Hi as <-.
  rewrite generateId_sample, lookup_empty.
  replace (Number.add (Number.of_Z 1000) (Number.of_Z (-5)))
    with (Number.of_Z 995) by (vm_compute; reflexivity).
  reflexivity.
Qed.

(** Numbers that are not whole are accepted as well: [ttl = 0.5] stores
    [expires_at = 1000.5], and with [ttl = 1e-20] the sum is rounded to
    1000, the [created_at] of the row.  With [ttl = 2^53] at second 1001
    the sum is rounded to [2^53 + 1000]. *)
Lemma submit_fraction_ttl :
  (forall ttl : Number.number,
      In ttl [one_half; one_e_minus_20] ->
      Worker.status
        (Worker.submit 1000
           {| Worker.Request.ttl := Some ttl;
              Worker.Request.cipherText := Some (js "c1");
              Worker.Request.iv := Some (js "v1") |} sample_rng ∅).1.1
      = 200)
  /\ Number.add (Number.of_Z 1000) one_half
     = SpecFloat.S754_finite false 8800491068719104 (-43)
  /\ Number.add (Number.of_Z 1000) one_e_minus_20 = Number.of_Z 1000
  /\ Number.add (Number.of_Z 1001) two_to_53 = Number.of_Z (2 ^ 53 + 1000).
Proof.
  split; [|repeat split; vm_compute; reflexivity].
  intros ttl [<-|[<-|[]]]; vm_compute; reflexivity.
Qed.

(** C4 (amended): a submit whose [ttl] is absent or zero is answered 400
    and creates no record.  Every record that is created has a [ttl] that
    is not zero, and [expires_at = created_at + ttl] as JavaScript adds the
    two numbers: for a whole [ttl] of at least 1 (and a sum below [2^53])
    this is the exact sum, which is greater than [created_at].  No other
    [ttl] is refused: with a non-empty [cipherText] and [iv] and a
    generated id that is free, every number other than zero is answered
    200, negative numbers and fractions included. *)
Theorem submit_ttl_validation (now : Z) (body : Worker.Request.body) (g : rng)
    (db : Worker.DB) :
  (Worker.not_number (Worker.Request.ttl body) = true ->
   Worker.submit now body g db = (Worker.Error 400, g, db))
  /\ (forall id expiresAt g' db',
        Worker.submit now body g db
        = (Worker.SubmitSuccess id expiresAt, g', db') ->
        exists ttl row,
          Worker.Request.ttl body = Some ttl /\ Number.falsy ttl = false
          /\ db !! id = None
          /\ db' = <[id := row]> db
          /\ Worker.created_at row = now
          /\ Worker.expires_at row
             = Number.add (Number.of_Z (Worker.created_at row)) ttl
          /\ expiresAt = Worker.expires_at row
          /\ (forall t : Z,
                ttl = Number.of_Z t ->
                (1 <= t)%Z -> (0 <= now)%Z -> (now + t < 2 ^ 53)%Z ->
                Worker.expires_at row
                = Number.of_Z (Worker.created_at row + t)
                /\ Number.lt (Number.of_Z (Worker.created_at row))
                     (Worker.expires_at row) = true))
  /\ (Worker.not_number (Worker.Request.ttl body) = false ->
      Worker.not_string (Worker.Request.cipherText body) = false ->
      Worker.not_string (Worker.Request.iv body) = false ->
      exists id g',
        Worker.generateId 12 g = Ok (id, g')
        /\ (db !! id = None ->
            Worker.status (Worker.submit now body g db).1.1 = 200)).
Proof.
  split; [|split].
  - intros H. apply submit_rejected. now left.
  - intros id e g' db' Hs.
    destruct (Worker.not_number (Worker.Request.ttl body)) eqn:Ht;
      [rewrite submit_rejected in Hs by (now left); discriminate|].
    destruct (Worker.not_string (Worker.Request.cipherText body)) eqn:Hc;
      [rewrite submit_rejected in Hs by (right; now left); discriminate|].
    destruct (Worker.not_string (Worker.Request.iv body)) eqn:Hi;
      [rewrite submit_rejected in Hs by (right; now right); discriminate|].
    destruct (submit_accepted now body g db Ht Hc Hi)
      as (t & c & i & Htt & Hne & _ & _ & Heq).
    rewrite Heq in Hs.
    destruct (Worker.generateId 12 g) as [[id0 g0]|]; [|discriminate].
    destruct (db !! id0) eqn:Hl; [discriminate|].
    injection Hs as <- <- <- <-.
    eexists t, _.
    do 7 (split; [reflexivity || assumption|]).
    cbn [Worker.created_at Worker.expires_at].
    intros t' -> Ht' Hnow Hsum.
    rewrite NumberFacts.of_Z_add by lia. split; [reflexivity|].
    rewrite NumberFacts.of_Z_lt by lia. apply Z.ltb_lt. lia.
  - intros Ht Hc Hi.
    destruct (submit_accepted now body g db Ht Hc Hi)
      as (t & c & i & _ & _ & _ & _ & ->).
    destruct (Worker.generateId 12 g) as [[id g']|e] eqn:Hg;
      [|rewrite generateId_value in Hg by (unfold Worker.ceil_3_4; dm_lia);
        discriminate Hg].
    exists id, g'. split; [reflexivity|]. now intros ->.
Qed.

(** The two halves at concrete requests: [ttl = 0] is rejected, and the
    record created for [ttl = 3600] at second 1000 expires at second
    4600. *)
Lemma submit_ttl_validation_witness :
  Worker.submit 1000
    {| Worker.Request.ttl := Some (Number.of_Z 0);
       Worker.Request.cipherText := Some (js "c1");
       Worker.Request.iv := Some (js "v1") |} sample_rng ∅
  = (Worker.Error 400, sample_rng, ∅)
  /\ exists ttl row,
       Worker.Request.ttl sample_body = Some ttl
       /\ Number.falsy ttl = false
       /\ (∅ : Worker.DB) !! sample_id = None
       /\ {[ sample_id := {| Worker.cipher_text := js "c1";
                             Worker.iv := js "v1";
                             Worker.created_at := 1000;
                             Worker.expires_at := Number.of_Z 4600 |} ]}
          = <[sample_id := row]> (∅ : Worker.DB)
       /\ Worker.created_at row = 1000%Z
       /\ Worker.expires_at row
          = Number.add (Number.of_Z (Worker.created_at row)) ttl
       /\ Number.of_Z 4600 = Worker.expires_at row
       /\ (forall t : Z,
             ttl = Number.of_Z t ->
             (1 <= t)%Z -> (0 <= 1000)%Z -> (1000 + t < 2 ^ 53)%Z ->
             Worker.expires_at row
             = Number.of_Z (Worker.created_at row + t)
             /\ Number.lt (Number.of_Z (Worker.created_at row))
                  (Worker.expires_at row) = true).
Proof.
  split.
  - apply (proj1 (submit_ttl_validation 1000 _ sample_rng ∅)).
    vm_compute. reflexivity.
  - apply (proj1 (proj2 (submit_ttl_validation 1000 sample_body sample_rng
                            ∅))
             sample_id (Number.of_Z 4600)
             {| source := source sample_rng; drawn := 9 |}).
    vm_compute. reflexivity.
Defined.

(** The id generated first is taken and the one generated next is free,
    yet the submit is answered 500 at once: one id was drawn (nine bytes),
    the table is as before. *)
Lemma submit_collision_no_retry :
  exists id g1 id2 g2,
    Worker.generateId 12 sample_rng = Ok (id, g1)
    /\ is_Some (sample_db !! id)
    /\ Worker.generateId 12 g1 = Ok (id2, g2)
    /\ sample_db !! id2 = None
    /\ Worker.submit 1000 sample_body sample_rng sample_db
       = (Worker.Error 500, g1, sample_db)
    /\ drawn g1 = 9%nat.
Proof.
  exists sample_id, {| source := source sample_rng; drawn := 9 |},
    second_id, {| source := source sample_rng; drawn := 18 |}.
  split; [exact generateId_sample|].
  split; [rewrite sample_db_lookup; now eexists|].
  split; [exact generateId_second|].
  split; [now apply lookup_singleton_ne|].
  split; [|reflexivity].
  destruct (submit_accepted 1000 sample_body sample_rng sample_db)
    as (t & c & i & _ & _ & _ & _ & ->); reflexivity.
Qed.

(** C5 (amended): a submit whose generated id is already in the table does
    not overwrite the row: the table is left as it was and the request is
    answered with status 500 at once, after one id has been generated;
    there is no retry with another id. *)
Theorem submit_collision (now : Z) (body : Worker.Request.body) (g g1 : rng)
    (db : Worker.DB) (id : jsstring) :
  Worker.not_number (Worker.Request.ttl body) = false ->
  Worker.not_string (Worker.Request.cipherText body) = false ->
  Worker.not_string (Worker.Request.iv body) = false ->
  Worker.generateId 12 g = Ok (id, g1) ->
  is_Some (db !! id) ->
  Worker.submit now body g db = (Worker.Error 500, g1, db).
Proof.
  intros Ht Hc Hi Hg [r Hr].
  destruct (submit_accepted now body g db Ht Hc Hi)
    as (t & c & i & _ & _ & _ & _ & ->).
  now rewrite Hg, Hr.
Qed.

Lemma submit_collision_witness :
  Worker.submit 1000 sample_body sample_rng sample_db
  = (Worker.Error 500, {| source := source sample_rng; drawn := 9 |},
     sample_db).
Proof.
  apply (submit_collision 1000 sample_body sample_rng _ sample_db sample_id).
  - reflexivity.
  - reflexivity.
  - reflexivity.
  - exact generateId_sample.
  - rewrite sample_db_lookup. now eexists.
Defined.

(** * The envelope codec *)

Lemma bytes_eqb_refl (a : bytes) : ModelAEAD.bytes_eqb a a = true.
Proof.
  induction a as [|x a IH]; [reflexivity|].
  cbn [ModelAEAD.bytes_eqb]. rewrite IH, andb_true_r.
  now apply Byte.byte_dec_lb.
Qed.

Lemma model_tag_length (key : Crypto.CryptoKey) (iv : bytes) :
  List.length (ModelAEAD.tag key iv) = 16%nat.
Proof.
  unfold ModelAEAD.tag. apply firstn_length_le.
  rewrite !length_app, repeat_length. lia.
Qed.

(** The model cipher meets the correctness assumption for every nonce
    length. *)
Lemma model_aead_correct (n : nat) :
  aead_correct_at n ModelAEAD.encrypt ModelAEAD.decrypt.
Proof.
  intros key iv data _. unfold ModelAEAD.decrypt, ModelAEAD.encrypt.
  cbv zeta. rewrite length_app, model_tag_length.
  replace (List.length data + 16 <? 16)%nat with false
    by (symmetry; apply Nat.ltb_ge; lia).
  replace (List.length data + 16 - 16)%nat with (List.length data) by lia.
  rewrite skipn_app, skipn_all, Nat.sub_diag. cbn [skipn app].
  rewrite bytes_eqb_refl.
  rewrite firstn_app, firstn_all, Nat.sub_diag. cbn [firstn].
  now rewrite app_nil_r.
Qed.

Lemma drawn_salt_length (g : rng) : List.length (drawn_salt g) = 16%nat.
Proof. unfold drawn_salt. now rewrite length_map, length_seq. Qed.

Lemma drawn_iv_length (g : rng) : List.length (drawn_iv g) = 12%nat.
Proof. unfold drawn_iv. now rewrite length_map, length_seq. Qed.

Lemma firstn_salt (salt rest : bytes) :
  List.length salt = 16%nat -> firstn 16 (salt ++ rest) = salt.
Proof.
  intros H. rewrite firstn_app, H, Nat.sub_diag, firstn_all2 by lia.
  cbn [firstn]. apply app_nil_r.
Qed.

Lemma skipn_salt (salt rest : bytes) :
  List.length salt = 16%nat -> skipn 16 (salt ++ rest) = rest.
Proof.
  intros H. rewrite skipn_app, H, Nat.sub_diag, skipn_all2 by lia.
  reflexivity.
Qed.

(** The value of [encryptText]: it never throws. *)
Lemma encryptText_value (enc : Crypto.CryptoKey -> bytes -> bytes -> bytes)
    (text password : jsstring) (g : rng) :
  let salt := drawn_salt g in
  let iv := drawn_iv g in
  let encryptedData :=
    enc (Crypto.deriveKey password salt) iv (Encoding.encode text) in
  Crypto.encryptText enc text password g
  = Ok ({| Crypto.cipherText := url_nopad (salt ++ encryptedData);
           Crypto.iv := url_nopad iv |},
        {| source := source g; drawn := drawn g + 16 + 12 |}).
Proof.
  cbv zeta. unfold Crypto.encryptText. cbv zeta.
  rewrite getRandomValues_value by lia. cbn [bind].
  rewrite getRandomValues_value by lia. cbn [bind].
  rewrite !base64urlEncode_value. cbn [bind]. reflexivity.
Qed.

(** [decryptText] on an envelope whose fields decode: the first sixteen
    bytes (or fewer when there are not as many) are the salt, and the
    verdict is the cipher's; no length is checked. *)
Lemma decryptText_decoded
    (dec : Crypto.CryptoKey -> bytes -> bytes -> option bytes)
    (cipherText ivString password : jsstring) (combinedBuffer iv : bytes) :
  base64urlDecode cipherText = Ok combinedBuffer ->
  base64urlDecode ivString = Ok iv ->
  Crypto.decryptText dec cipherText ivString password
  = match dec (Crypto.deriveKey password (firstn 16 combinedBuffer)) iv
            (skipn 16 combinedBuffer) with
    | Some decryptedData => Ok (Encoding.decode decryptedData)
    | None => Throw OperationError
    end.
Proof.
  intros Hc Hi. unfold Crypto.decryptText. rewrite Hc, Hi. reflexivity.
Qed.

(** The only exception [base64urlDecode] throws. *)
Lemma base64urlDecode_error (s : jsstring) (e : DOMException) :
  base64urlDecode s = Throw e -> e = InvalidCharacterError.
Proof.
  unfold base64urlDecode, Base64.atob. cbv zeta.
  repeat match goal with
    | |- context [if ?b then _ else _] => destruct b
    end; cbn [bind]; congruence.
Qed.

Lemma decryptText_undecoded
    (dec : Crypto.CryptoKey -> bytes -> bytes -> option bytes)
    (cipherText ivString password : jsstring) :
  (forall b, base64urlDecode cipherText <> Ok b)
  \/ (forall b, base64urlDecode ivString <> Ok b) ->
  Crypto.decryptText dec cipherText ivString password
  = Throw InvalidCharacterError.
Proof.
  intros H. unfold Crypto.decryptText.
  destruct (base64urlDecode cipherText) as [cb|e] eqn:Hc.
  - destruct H as [H|H]; [now destruct (H cb)|].
    destruct (base64urlDecode ivString) as [ib|e] eqn:Hi;
      [now destruct (H ib)|].
    apply base64urlDecode_error in Hi as ->. reflexivity.
  - apply base64urlDecode_error in Hc as ->. reflexivity.
Qed.

(** Decrypting what [encryptText] returned, possibly with another
    password. *)
Lemma decryptText_encryptText
    (enc : Crypto.CryptoKey -> bytes -> bytes -> bytes)
    (dec : Crypto.CryptoKey -> bytes -> bytes -> option bytes)
    (text password1 password2 : jsstring) (g : rng) :
  exists env g',
    Crypto.encryptText enc text password1 g = Ok (env, g')
    /\ Crypto.decryptText dec (Crypto.cipherText env) (Crypto.iv env)
         password2
       = match dec (Crypto.deriveKey password2 (drawn_salt g)) (drawn_iv g)
                 (enc (Crypto.deriveKey password1 (drawn_salt g))
                    (drawn_iv g) (Encoding.encode text)) with
         | Some decryptedData => Ok (Encoding.decode decryptedData)
         | None => Throw OperationError
         end.
Proof.
  eexists _, _. split; [apply encryptText_value|].
  cbn [Crypto.cipherText Crypto.iv].
  erewrite decryptText_decoded by apply base64urlDecode_url_nopad.
  rewrite firstn_salt, skipn_salt by apply drawn_salt_length.
  reflexivity.
Qed.

(** Under a correct cipher the round trip returns
    [decoder.decode(encoder.encode(text))]. *)
Lemma roundtrip_value
    (enc : Crypto.CryptoKey -> bytes -> bytes -> bytes)
    (dec : Crypto.CryptoKey -> bytes -> bytes -> option bytes)
    (text password : jsstring) (g : rng) :
  aead_correct_at 12 enc dec ->
  exists env g',
    Crypto.encryptText enc text password g = Ok (env, g')
    /\ Crypto.decryptText dec (Crypto.cipherText env) (Crypto.iv env)
         password
       = Ok (Encoding.decode (Encoding.encode text)).
Proof.
  intros Hc.
  destruct (decryptText_encryptText enc dec text password password g)
    as (env & g' & He & Hd).
  exists env, g'. split; [exact He|].
  now rewrite Hd, Hc by apply drawn_iv_length.
Qed.

(** The string made of U+FEFF alone is encrypted and decrypted to the empty
    string, whatever the cipher: no correct cipher makes the round trip
    hold for every string. *)
Lemma roundtrip_loses_bom :
  ~ exists enc dec,
      aead_correct_at 12 enc dec
      /\ forall text password g,
           is_jsstring text ->
           exists env g',
             Crypto.encryptText enc text password g = Ok (env, g')
             /\ Crypto.decryptText dec (Crypto.cipherText env)
                  (Crypto.iv env) password
                = Ok text.
Proof.
  intros (enc & dec & Hc & H).
  destruct (H [Encoding.BOM] (js "pw") sample_rng) as (env & g' & He & Hd).
  { repeat constructor. }
  destruct (roundtrip_value enc dec [Encoding.BOM] (js "pw") sample_rng Hc)
    as (env' & g'' & He' & Hd').
  rewrite He in He'. injection He' as <- <-.
  rewrite Hd in Hd'. discriminate Hd'.
Qed.

(** C1 (amended): for every plaintext that is well-formed UTF-16 and does
    not start with U+FEFF, and every password, decrypting the output of
    [encryptText] with the same password returns the plaintext, given that
    AES-GCM decryption undoes encryption under the same key and 12-byte
    nonce. *)
Theorem decrypt_encrypt_roundtrip
    (enc : Crypto.CryptoKey -> bytes -> bytes -> bytes)
    (dec : Crypto.CryptoKey -> bytes -> bytes -> option bytes)
    (text password : jsstring) (g : rng) :
  aead_correct_at 12 enc dec ->
  Encoding.well_formed text = true ->
  no_leading_bom text ->
  exists env g',
    Crypto.encryptText enc text password g = Ok (env, g')
    /\ Crypto.decryptText dec (Crypto.cipherText env) (Crypto.iv env)
         password
       = Ok text.
Proof.
  intros Hc Hw Hb.
  destruct (roundtrip_value enc dec text password g Hc)
    as (env & g' & He & Hd).
  exists env, g'. split; [exact He|].
  now rewrite Hd, EncodingFacts.decode_encode.
Qed.

(** The round trip of a text with an accent, a currency sign and an emoji
    under the model cipher. *)
Lemma decrypt_encrypt_roundtrip_witness :
  exists env g',
    Crypto.encryptText ModelAEAD.encrypt [233; 8364; 55357; 56832]
      (js "pw") sample_rng = Ok (env, g')
    /\ Crypto.decryptText ModelAEAD.decrypt (Crypto.cipherText env)
         (Crypto.iv env) (js "pw")
       = Ok [233; 8364; 55357; 56832].
Proof.
  apply (decrypt_encrypt_roundtrip ModelAEAD.encrypt ModelAEAD.decrypt).
  - apply model_aead_correct.
  - reflexivity.
  - cbn. discriminate.
Defined.

(** C8: [encryptText] draws a salt of 16 bytes and then a nonce of 12 bytes
    from the random source; the [cipherText] field is the base64url
    encoding of the salt followed by the output of AES-GCM, the [iv] field
    that of the nonce alone, and the first 16 bytes of the decoded
    [cipherText] field are the salt. *)
Theorem encryptText_layout
    (enc : Crypto.CryptoKey -> bytes -> bytes -> bytes)
    (text password : jsstring) (g : rng) :
  exists (salt iv encryptedData combinedBuffer : bytes) (g1 g2 : rng)
         (env : Crypto.Envelope),
    getRandomValues 16 g = Ok (salt, g1)
    /\ getRandomValues 12 g1 = Ok (iv, g2)
    /\ List.length salt = 16%nat
    /\ List.length iv = 12%nat
    /\ encryptedData
       = enc (Crypto.deriveKey password salt) iv (Encoding.encode text)
    /\ Crypto.encryptText enc text password g = Ok (env, g2)
    /\ base64urlEncode (salt ++ encryptedData) = Ok (Crypto.cipherText env)
    /\ base64urlEncode iv = Ok (Crypto.iv env)
    /\ base64urlDecode (Crypto.cipherText env) = Ok combinedBuffer
    /\ firstn 16 combinedBuffer = salt
    /\ skipn 16 combinedBuffer = encryptedData
    /\ base64urlDecode (Crypto.iv env) = Ok iv.
Proof.
  set (salt := drawn_salt g). set (iv := drawn_iv g).
  set (e := enc (Crypto.deriveKey password salt) iv (Encoding.encode text)).
  exists salt, iv, e, (salt ++ e),
    {| source := source g; drawn := drawn g + 16 |},
    {| source := source g; drawn := drawn g + 16 + 12 |},
    {| Crypto.cipherText := url_nopad (salt ++ e);
       Crypto.iv := url_nopad iv |}.
  cbn [Crypto.cipherText Crypto.iv].
  split; [now rewrite getRandomValues_value by lia|].
  split; [now rewrite getRandomValues_value by lia|].
  split; [apply drawn_salt_length|].
  split; [apply drawn_iv_length|].
  split; [reflexivity|].
  split; [apply encryptText_value|].
  split; [apply base64urlEncode_value|].
  split; [apply base64urlEncode_value|].
  split; [apply base64urlDecode_url_nopad|].
  split; [apply firstn_salt, drawn_salt_length|].
  split; [apply skipn_salt, drawn_salt_length|].
  apply base64urlDecode_url_nopad.
Qed.

(** Both fields empty: the nonce decodes to no byte at all and the
    [cipherText] field to fewer than sixteen, yet [decryptText] does not
    stop at the decoding: it goes on to derive a key (from an empty salt)
    and to AES-GCM decryption, whose verdict is the result. *)
Lemma decryptText_no_length_check :
  base64urlDecode (js "") = Ok []
  /\ forall dec password,
       Crypto.decryptText dec (js "") (js "") password
       = match dec (Crypto.deriveKey password []) [] [] with
         | Some decryptedData => Ok (Encoding.decode decryptedData)
         | None => Throw OperationError
         end
       /\ Crypto.decryptText dec (js "") (js "") password
          <> Throw InvalidCharacterError.
Proof.
  split; [reflexivity|]. intros dec password.
  split; [reflexivity|].
  change (Crypto.decryptText dec (js "") (js "") password)
    with (match dec (Crypto.deriveKey password []) [] [] with
          | Some decryptedData => Ok (Encoding.decode decryptedData)
          | None => Throw OperationError
          end).
  destruct (dec _ [] []); discriminate.
Qed.

(** An envelope with a nonce of eight bytes is decrypted like any other. *)
Lemma decryptText_short_nonce
    (enc : Crypto.CryptoKey -> bytes -> bytes -> bytes)
    (dec : Crypto.CryptoKey -> bytes -> bytes -> option bytes)
    (salt iv : bytes) (text password : jsstring) :
  aead_correct_at 8 enc dec ->
  List.length salt = 16%nat -> List.length iv = 8%nat ->
  Crypto.decryptText dec
    (url_nopad (salt ++ enc (Crypto.deriveKey password salt) iv
                          (Encoding.encode text)))
    (url_nopad iv) password
  = Ok (Encoding.decode (Encoding.encode text)).
Proof.
  intros Hc Hs Hi.
  erewrite decryptText_decoded by apply base64urlDecode_url_nopad.
  rewrite firstn_salt, skipn_salt by exact Hs.
  now rewrite Hc.
Qed.

(** C3 (amended): when either field fails to base64url-decode,
    [decryptText] fails with the decoder's [InvalidCharacterError], before
    any key is derived.  The lengths of the decoded fields are not checked:
    when both fields decode, whatever their lengths, the key is derived
    from the first sixteen bytes of the decoded [cipherText] field (all of
    them when there are fewer) and the outcome is that of AES-GCM
    decryption. *)
Theorem decryptText_malformed
    (dec : Crypto.CryptoKey -> bytes -> bytes -> option bytes)
    (cipherText ivString password : jsstring) :
  ((forall b, base64urlDecode cipherText <> Ok b)
   \/ (forall b, base64urlDecode ivString <> Ok b) ->
   Crypto.decryptText dec cipherText ivString password
   = Throw InvalidCharacterError)
  /\ (forall combinedBuffer iv,
        base64urlDecode cipherText = Ok combinedBuffer ->
        base64urlDecode ivString = Ok iv ->
        Crypto.decryptText dec cipherText ivString password
        = match dec (Crypto.deriveKey password (firstn 16 combinedBuffer))
                  iv (skipn 16 combinedBuffer) with
          | Some decryptedData => Ok (Encoding.decode decryptedData)
          | None => Throw OperationError
          end).
Proof.
  split.
  - apply decryptText_undecoded.
  - intros cb ib. apply decryptText_decoded.
Qed.

(** A [cipherText] field with a character outside the alphabet, and an
    envelope of three bytes with a nonce of three bytes. *)
Lemma decryptText_malformed_witness :
  Crypto.decryptText ModelAEAD.decrypt (js "!!!!") (js "AAAAAAAAAAAAAAAA")
    (js "pw")
  = Throw InvalidCharacterError
  /\ Crypto.decryptText ModelAEAD.decrypt (js "AAEC") (js "AwQF") (js "pw")
     = match ModelAEAD.decrypt
               (Crypto.deriveKey (js "pw") (firstn 16 [x00; x01; x02]))
               [x03; x04; x05] (skipn 16 [x00; x01; x02]) with
       | Some decryptedData => Ok (Encoding.decode decryptedData)
       | None => Throw OperationError
       end.
Proof.
  split.
  - apply (proj1 (decryptText_malformed ModelAEAD.decrypt (js "!!!!")
                    (js "AAAAAAAAAAAAAAAA") (js "pw"))).
    left. intros b. discriminate.
  - apply (proj2 (decryptText_malformed ModelAEAD.decrypt (js "AAEC")
                    (js "AwQF") (js "pw"))); reflexivity.
Defined.




Lemma strip_frame_same (m data : bytes) :
  ModelCommitting.strip (ModelCommitting.frame m)
    (ModelCommitting.frame m ++ data) = Some data.
Proof.
  induction m as [|b m IH];
    cbn [ModelCommitting.frame ModelCommitting.strip app]; [reflexivity|].
  change (Byte.eqb x01 x01) with true. cbv iota.
  replace (Byte.eqb b b) with true
    by (symmetry; now apply Byte.byte_dec_lb).
  exact IH.
Qed.


Lemma model_committing_correct (n : nat) :
  aead_correct_at n ModelCommitting.encrypt ModelCommitting.decrypt.
Proof. intros key iv data _. apply strip_frame_same. Qed.



(** [decryptText] returns a plaintext only when both fields decoded and
    AES-GCM accepted the data under the key derived from the password and
    the first sixteen bytes of the decoded [cipherText] field. *)
Theorem decryptText_authenticated
    (dec : Crypto.CryptoKey -> bytes -> bytes -> option bytes)
    (cipherText ivString password plaintext : jsstring) :
  Crypto.decryptText dec cipherText ivString password = Ok plaintext ->
  exists combinedBuffer iv decryptedData,
    base64urlDecode cipherText = Ok combinedBuffer
    /\ base64urlDecode ivString = Ok iv
    /\ dec (Crypto.deriveKey password (firstn 16 combinedBuffer)) iv
         (skipn 16 combinedBuffer) = Some decryptedData
    /\ plaintext = Encoding.decode decryptedData.
Proof.
  unfold Crypto.decryptText.
  destruct (base64urlDecode cipherText) as [cb|]; [|discriminate].
  destruct (base64urlDecode ivString) as [ib|]; [|discriminate].
  cbn [bind].
  destruct (dec _ ib (skipn 16 cb)) as [d|] eqn:Hd; [|discriminate].
  intros [= <-]. now exists cb, ib, d.
Qed.

(** An envelope made with the model cipher for the text [hi]. *)
Lemma decryptText_authenticated_witness :
  exists combinedBuffer iv decryptedData,
    base64urlDecode (js "AAECAwQFBgcICQoLDA0OD2hpcHcAAQIDBAUGBwgJCgsMDQ")
    = Ok combinedBuffer
    /\ base64urlDecode (js "AAAAAAAAAAAAAAAA") = Ok iv
    /\ ModelAEAD.decrypt
         (Crypto.deriveKey (js "pw") (firstn 16 combinedBuffer)) iv
         (skipn 16 combinedBuffer) = Some decryptedData
    /\ js "hi" = Encoding.decode decryptedData.
Proof.
  apply (decryptText_authenticated ModelAEAD.decrypt
           (js "AAECAwQFBgcICQoLDA0OD2hpcHcAAQIDBAUGBwgJCgsMDQ")
           (js "AAAAAAAAAAAAAAAA") (js "pw") (js "hi")).
  reflexivity.
Defined.


(** * Further properties of the store and of the codecs *)

(** A fetch of an id that is not in the table answers 404 and changes
    nothing. *)
Theorem fetch_unknown (now : Z) (id : jsstring) (db : Worker.DB) :
  db !! id = None -> Worker.fetch now id db = (Worker.Error 404, db).
Proof. apply fetch_missing. Qed.

Lemma fetch_unknown_witness :
  Worker.fetch 1000 second_id sample_db = (Worker.Error 404, sample_db).
Proof.
  apply (fetch_unknown 1000 second_id sample_db).
  now apply lookup_singleton_ne.
Defined.

(** Submit, then fetch: a record created by a submit is fetched, with the
    [cipherText] and [iv] that were submitted, by every fetch of the
    returned id up to and including the second [expiresAt], that is, as
    long as [expiresAt < later] does not hold. *)
Theorem submit_then_fetch (now later : Z) (body : Worker.Request.body)
    (g g' : rng) (db db' : Worker.DB) (id : jsstring)
    (expiresAt : Number.number) :
  Worker.submit now body g db = (Worker.SubmitSuccess id expiresAt, g', db') ->
  Number.lt expiresAt (Number.of_Z later) = false ->
  exists cipherText iv,
    Worker.Request.cipherText body = Some cipherText
    /\ Worker.Request.iv body = Some iv
    /\ Worker.fetch later id db'
       = (Worker.FetchSuccess id cipherText iv expiresAt, db').
Proof.
  intros Hs Hl.
  destruct (Worker.not_number (Worker.Request.ttl body)) eqn:Ht;
    [rewrite submit_rejected in Hs by (now left); discriminate|].
  destruct (Worker.not_string (Worker.Request.cipherText body)) eqn:Hc;
    [rewrite submit_rejected in Hs by (right; now left); discriminate|].
  destruct (Worker.not_string (Worker.Request.iv body)) eqn:Hi;
    [rewrite submit_rejected in Hs by (right; now right); discriminate|].
  destruct (submit_accepted now body g db Ht Hc Hi)
    as (t & c & i & _ & _ & Hcc & Hii & Heq).
  rewrite Heq in Hs.
  destruct (Worker.generateId 12 g) as [[id0 g0]|]; [|discriminate].
  destruct (db !! id0) eqn:Hlk; [discriminate|].
  injection Hs as <- <- <- <-.
  exists c, i. split; [exact Hcc|]. split; [exact Hii|].
  rewrite (fetch_alive later id0 _ _ (lookup_insert_eq db id0 _)).
  - reflexivity.
  - exact Hl.
Qed.

Lemma submit_then_fetch_witness :
  exists cipherText iv,
    Worker.Request.cipherText sample_body = Some cipherText
    /\ Worker.Request.iv sample_body = Some iv
    /\ Worker.fetch 4600 sample_id
         {[ sample_id := {| Worker.cipher_text := js "c1";
                            Worker.iv := js "v1";
                            Worker.created_at := 1000;
                            Worker.expires_at := Number.of_Z 4600 |} ]}
       = (Worker.FetchSuccess sample_id cipherText iv (Number.of_Z 4600),
          {[ sample_id := {| Worker.cipher_text := js "c1";
                             Worker.iv := js "v1";
                             Worker.created_at := 1000;
                             Worker.expires_at := Number.of_Z 4600 |} ]}).
Proof.
  apply (submit_then_fetch 1000 4600 sample_body sample_rng
           {| source := source sample_rng; drawn := 9 |} ∅).
  - vm_compute. reflexivity.
  - vm_compute. reflexivity.
Defined.

(** With whole numbers the handler's test is the comparison of the
    values: a record submitted during second [now] with a whole [ttl] of
    at least 1 is returned by a fetch of the returned id during second
    [later] exactly when [later <= now + ttl], the second [now + ttl]
    included, and answered 410 from the second after that. *)
Theorem submit_then_fetch_whole (now ttl later : Z)
    (body : Worker.Request.body) (g g' : rng) (db db' : Worker.DB)
    (id : jsstring) (expiresAt : Number.number) :
  (0 <= now)%Z -> (1 <= ttl)%Z -> (now + ttl < 2 ^ 53)%Z ->
  (0 <= later < 2 ^ 53)%Z ->
  Worker.Request.ttl body = Some (Number.of_Z ttl) ->
  Worker.submit now body g db = (Worker.SubmitSuccess id expiresAt, g', db') ->
  expiresAt = Number.of_Z (now + ttl)
  /\ Worker.status (Worker.fetch later id db').1
     = (if (later <=? now + ttl)%Z then 200 else 410).
Proof.
  intros Hnow Httl Hsum Hlater Hb Hs.
  destruct (Worker.not_number (Worker.Request.ttl body)) eqn:Ht;
    [rewrite submit_rejected in Hs by (now left); discriminate|].
  destruct (Worker.not_string (Worker.Request.cipherText body)) eqn:Hc;
    [rewrite submit_rejected in Hs by (right; now left); discriminate|].
  destruct (Worker.not_string (Worker.Request.iv body)) eqn:Hi;
    [rewrite submit_rejected in Hs by (right; now right); discriminate|].
  destruct (submit_accepted now body g db Ht Hc Hi)
    as (t & c & i & Htt & _ & _ & _ & Heq).
  rewrite Hb in Htt. injection Htt as <-.
  rewrite Heq in Hs.
  destruct (Worker.generateId 12 g) as [[id0 g0]|]; [|discriminate].
  destruct (db !! id0) eqn:Hlk; [discriminate|].
  rewrite NumberFacts.of_Z_add in Hs by lia.
  injection Hs as <- <- <- <-. split; [reflexivity|].
  unfold Worker.fetch. rewrite lookup_insert_eq.
  cbn [Worker.expires_at]. rewrite NumberFacts.of_Z_lt by lia.
  destruct (Z.ltb_spec (now + ttl) later) as [H|H].
  - replace (later <=? now + ttl)%Z with false
      by (symmetry; apply Z.leb_gt; lia).
    reflexivity.
  - replace (later <=? now + ttl)%Z with true
      by (symmetry; apply Z.leb_le; lia).
    reflexivity.
Qed.

Lemma submit_then_fetch_whole_witness :
  Number.of_Z 4600 = Number.of_Z (1000 + 3600)
  /\ Worker.status
       (Worker.fetch 4601 sample_id
          {[ sample_id := {| Worker.cipher_text := js "c1";
                             Worker.iv := js "v1";
                             Worker.created_at := 1000;
                             Worker.expires_at := Number.of_Z 4600 |} ]}).1
     = (if (4601 <=? 1000 + 3600)%Z then 200 else 410).
Proof.
  apply (submit_then_fetch_whole 1000 3600 4601 sample_body sample_rng
           {| source := source sample_rng; drawn := 9 |} ∅).
  - lia.
  - lia.
  - lia.
  - lia.
  - reflexivity.
  - vm_compute. reflexivity.
Defined.

(** [new TextDecoder().decode(new TextEncoder().encode(s))] is [s] for every
    well-formed string [s] that does not start with U+FEFF. *)
Theorem text_decode_encode (s : jsstring) :
  Encoding.well_formed s = true -> no_leading_bom s ->
  Encoding.decode (Encoding.encode s) = s.
Proof. apply EncodingFacts.decode_encode. Qed.

Lemma text_decode_encode_witness :
  Encoding.decode (Encoding.encode [233; 8364; 55357; 56832])
  = [233; 8364; 55357; 56832].
Proof.
  apply (text_decode_encode [233; 8364; 55357; 56832]).
  - reflexivity.
  - cbn. discriminate.
Defined.

(** [base64urlEncode] gives URL-safe characters only, four for every three
    bytes and two or three for a last group of one or two bytes. *)
Theorem base64urlEncode_url_safe (b : bytes) :
  exists s,
    base64urlEncode b = Ok s
    /\ forallb url_safe s = true
    /\ List.length s = ((4 * List.length b + 2) / 3)%nat.
Proof.
  exists (url_nopad b). split; [apply base64urlEncode_value|].
  split; [apply url_nopad_safe|apply url_nopad_length].
Qed.

Lemma in_pad_loop (fuel : nat) (x : N) (s : jsstring) :
  In x s -> In x (pad_loop fuel s).
Proof.
  revert s. induction fuel as [|fuel IH]; intros s Hx; [exact Hx|].
  cbn [pad_loop]. destruct (_ =? 0)%nat; [exact Hx|].
  apply IH, in_or_app. now left.
Qed.

Lemma in_strip_padding (x : N) (s : jsstring) :
  x <> Base64.EQUALS -> In x s -> In x (Base64.strip_padding s).
Proof.
  intros Hne. induction s as [|c r IH]; intros Hx; [exact Hx|].
  cbn [Base64.strip_padding].
  destruct (N.eqb_spec c Base64.EQUALS) as [->|Hc]; cbn [andb].
  - destruct Hx as [<-|Hx]; [now destruct Hne|].
    destruct r as [|d [|e r]].
    + destruct Hx.
    + destruct (N.eqb_spec d Base64.EQUALS) as [->|Hd].
      * destruct Hx as [<-|[]]. now destruct Hne.
      * right. now apply IH.
    + right. now apply IH.
  - destruct Hx as [<-|Hx]; [now left|right; now apply IH].
Qed.

Lemma forallb_false {A} (f : A -> bool) (x : A) (l : list A) :
  In x l -> f x = false -> forallb f l = false.
Proof.
  intros Hx Hf. destruct (forallb f l) eqn:E; [|reflexivity].
  rewrite forallb_forall in E. rewrite (E x Hx) in Hf. discriminate.
Qed.

Lemma undecodable_from_url (c : N) :
  decodable_char c = false ->
  Base64.is_alphabet (from_url c) = false
  /\ Base64.is_whitespace (from_url c) = false
  /\ from_url c <> Base64.EQUALS.
Proof.
  unfold decodable_char, url_safe, Base64.is_whitespace, Base64.is_alphabet,
    from_url, Base64.PLUS, Base64.MINUS, Base64.SLASH, Base64.UNDERSCORE,
    Base64.EQUALS.
  cbv zeta. intros H.
  repeat match type of H with
    | context [N.leb ?a ?b] =>
        destruct (N.leb_spec a b); cbn [andb orb] in H
    | context [N.eqb ?a ?b] =>
        destruct (N.eqb_spec a b); cbn [andb orb] in H
    end; try discriminate H.
  all: cases_bool; repeat split; try reflexivity; lia.
Qed.

(** [atob] on a string with a character that can be in no base64 text. *)
Lemma atob_rejects (x : N) (s : jsstring) :
  In x s -> Base64.is_alphabet x = false ->
  Base64.is_whitespace x = false -> x <> Base64.EQUALS ->
  Base64.atob s = Throw InvalidCharacterError.
Proof.
  intros Hx Ha Hw He. unfold Base64.atob. cbv zeta.
  set (data := List.filter (fun c => negb (Base64.is_whitespace c)) s).
  assert (Hd : In x data)
    by (apply filter_In; split; [exact Hx|now rewrite Hw]).
  set (data' := if (List.length data mod 4 =? 0)%nat
                then Base64.strip_padding data else data).
  assert (Hd' : In x data').
  { unfold data'. destruct (_ =? 0)%nat; [|exact Hd].
    now apply in_strip_padding. }
  destruct (_ =? 1)%nat; [reflexivity|].
  now rewrite (forallb_false _ x data' Hd' Ha).
Qed.

(** A field with a character outside the two alphabets, other than ['=']
    and whitespace, does not decode. *)
Theorem base64urlDecode_rejects (c : N) (str : jsstring) :
  In c str -> decodable_char c = false ->
  base64urlDecode str = Throw InvalidCharacterError.
Proof.
  intros Hc Hu. apply undecodable_from_url in Hu as (Ha & Hw & He).
  unfold base64urlDecode. cbv zeta.
  rewrite Base64Facts.replace_twice_from_url.
  rewrite (atob_rejects (from_url c)); try assumption; [reflexivity|].
  apply in_pad_loop, in_map, Hc.
Qed.

Lemma base64urlDecode_rejects_witness :
  base64urlDecode (js "abc!") = Throw InvalidCharacterError.
Proof.
  apply (base64urlDecode_rejects 33 (js "abc!")).
  - cbn. tauto.
  - reflexivity.
Defined.

(** * The worker's handler over sequences of requests *)

Lemma startsWith_spec (s prefix : jsstring) :
  startsWith s prefix = true <-> exists rest, s = prefix ++ rest.
Proof.
  unfold startsWith. rewrite bool_decide_eq_true. split.
  - intros H. exists (skipn (List.length prefix) s).
    rewrite <- H at 1. symmetry. apply firstn_skipn.
  - intros [rest ->]. rewrite firstn_app, Nat.sub_diag, firstn_all.
    cbn [firstn]. apply app_nil_r.
Qed.

(** What a submit does to the table: nothing, or one new row of the shape
    [row_ok] under an id that was free. *)
Lemma submit_effect (now : Z) (body : Worker.Request.body) (g g' : rng)
    (db db' : Worker.DB) (r : Worker.Response) :
  Worker.submit now body g db = (r, g', db') ->
  (db' = db /\ (r = Worker.Error 400 \/ r = Worker.Error 500))
  \/ exists id row,
       r = Worker.SubmitSuccess id (Worker.expires_at row)
       /\ db !! id = None /\ db' = <[id := row]> db
       /\ Handler.row_ok id row /\ Worker.created_at row = now
       /\ Worker.Request.cipherText body = Some (Worker.cipher_text row)
       /\ Worker.Request.iv body = Some (Worker.iv row)
       /\ exists ttl,
            Worker.Request.ttl body = Some ttl
            /\ Number.falsy ttl = false
            /\ Worker.expires_at row = Number.add (Number.of_Z now) ttl.
Proof.
  intros Hs.
  destruct (Worker.not_number (Worker.Request.ttl body)) eqn:Ht;
    [rewrite submit_rejected in Hs by (now left); injection Hs as <- <- <-;
     left; split; [reflexivity|now left]|].
  destruct (Worker.not_string (Worker.Request.cipherText body)) eqn:Hc;
    [rewrite submit_rejected in Hs by (right; now left);
     injection Hs as <- <- <-; left; split; [reflexivity|now left]|].
  destruct (Worker.not_string (Worker.Request.iv body)) eqn:Hi;
    [rewrite submit_rejected in Hs by (right; now right);
     injection Hs as <- <- <-; left; split; [reflexivity|now left]|].
  destruct (submit_accepted now body g db Ht Hc Hi)
    as (t & c & i & Htt & Hne & Hcc & Hii & Heq).
  rewrite Heq in Hs.
  rewrite generateId_value in Hs by (unfold Worker.ceil_3_4; dm_lia).
  cbv zeta in Hs.
  set (bs := map (source g) (seq (drawn g) (N.to_nat (Worker.ceil_3_4 12))))
    in Hs.
  set (id := firstn (N.to_nat 12) (url_nopad bs)) in Hs.
  match type of Hs with
  | match ?x with _ => _ end = _ => destruct x eqn:Hl
  end.
  - injection Hs as <- <- <-. left. split; [reflexivity|now right].
  - injection Hs as <- <- <-. right.
    exists id, {| Worker.cipher_text := c; Worker.iv := i;
                  Worker.created_at := now;
                  Worker.expires_at := Number.add (Number.of_Z now) t |}.
    split; [reflexivity|]. split; [exact Hl|]. split; [reflexivity|].
    cbn [Worker.cipher_text Worker.iv Worker.created_at Worker.expires_at].
    split; [|split; [reflexivity|split; [exact Hcc|split; [exact Hii|]]]].
    + unfold Handler.row_ok.
      cbn [Worker.cipher_text Worker.iv].
      split.
      { unfold id. apply firstn_length_le. rewrite url_nopad_length.
        unfold bs. rewrite length_map, length_seq. reflexivity. }
      split; [apply forallb_firstn, url_nopad_safe|].
      rewrite Hcc in Hc. rewrite Hii in Hi.
      split; [now destruct c|now destruct i].
    + exists t. split; [exact Htt|]. split; [exact Hne|reflexivity].
Qed.

(** What a fetch does to the table: nothing, or the deletion of the row
    fetched, which had expired. *)
Lemma fetch_effect (now : Z) (id : jsstring) (db db' : Worker.DB)
    (r : Worker.Response) :
  Worker.fetch now id db = (r, db') ->
  (db' = db
   /\ (r = Worker.Error 404 /\ db !! id = None
       \/ exists row,
            db !! id = Some row
            /\ Number.lt (Worker.expires_at row) (Number.of_Z now) = false
            /\ r = Worker.FetchSuccess id (Worker.cipher_text row)
                     (Worker.iv row) (Worker.expires_at row)))
  \/ exists row,
       db !! id = Some row
       /\ Number.lt (Worker.expires_at row) (Number.of_Z now) = true
       /\ db' = delete id db /\ r = Worker.Error 410.
Proof.
  unfold Worker.fetch. destruct (db !! id) as [row|] eqn:Hl.
  - destruct (Number.lt (Worker.expires_at row) (Number.of_Z now)) eqn:Hlt;
      intros [= <- <-].
    + right. now exists row.
    + left. split; [reflexivity|]. right. now exists row.
  - intros [= <- <-]. left. split; [reflexivity|]. now left.
Qed.

(** The routes of the handler. *)
Lemma handle_cases (now : Z) (request : Handler.Request) (g : rng)
    (db : Worker.DB) :
  Handler.handle now request g db = (Handler.Preflight, g, db)
  \/ Handler.handle now request g db = (Handler.Info, g, db)
  \/ Handler.handle now request g db
     = (Handler.Route (Worker.Error 500), g, db)
  \/ (exists body,
        Handler.method request = js "POST"
        /\ Handler.pathname request = js "/api/submit"
        /\ Handler.json request = Some body
        /\ Handler.handle now request g db
           = (Handler.Route (Worker.submit now body g db).1.1,
              (Worker.submit now body g db).1.2,
              (Worker.submit now body g db).2))
  \/ (exists id,
        Handler.pathname request = js "/api/fetch/" ++ id
        /\ Handler.method request <> js "OPTIONS"
        /\ Handler.handle now request g db
           = (Handler.Route (Worker.fetch now id db).1, g,
              (Worker.fetch now id db).2)).
Proof.
  unfold Handler.handle. cbv zeta.
  destruct (bool_decide_reflect (Handler.method request = js "OPTIONS"))
    as [Ho|Ho]; [now left|].
  destruct (bool_decide_reflect (Handler.pathname request = js "/api/submit"))
    as [Hp|Hp]; cbn [andb].
  - destruct (bool_decide_reflect (Handler.method request = js "POST"))
      as [Hm|Hm].
    + destruct (Handler.json request) as [body|] eqn:Hj;
        [|right; right; now left].
      right; right; right; left. exists body.
      repeat (split; [assumption || reflexivity|]).
      now destruct (Worker.submit now body g db) as [[r g'] db'].
    + rewrite Hp. right; now left.
  - destruct (startsWith (Handler.pathname request) (js "/api/fetch/"))
      eqn:Hs; [|right; now left].
    right; right; right; right.
    exists (skipn 11 (Handler.pathname request)).
    split; [|split; [exact Ho|]].
    + unfold startsWith in Hs. apply bool_decide_eq_true in Hs.
      rewrite <- Hs at 1. symmetry. apply firstn_skipn.
    + now destruct (Worker.fetch now _ db) as [r db'].
Qed.

Lemma handle_keeps_row (now : Z) (request : Handler.Request) (g : rng)
    (db : Worker.DB) (id : jsstring) (row : Worker.Row) :
  db !! id = Some row ->
  (Handler.handle now request g db).2 !! id = Some row
  \/ ((Handler.handle now request g db).2 !! id = None
      /\ Number.lt (Worker.expires_at row) (Number.of_Z now) = true
      /\ Handler.pathname request = js "/api/fetch/" ++ id
      /\ (Handler.handle now request g db).1.1
         = Handler.Route (Worker.Error 410)).
Proof.
  intros Hrow.
  destruct (handle_cases now request g db)
    as [-> | [-> | [-> | [(body & _ & _ & _ & ->) | (id' & Hp & _ & ->)]]]];
    cbn [fst snd]; try (now left).
  - destruct (Worker.submit now body g db) as [[r g'] db'] eqn:Hs.
    cbn [fst snd]. left.
    apply submit_effect in Hs
      as [[-> _] | (id' & row' & _ & Hfree & -> & _)]; [exact Hrow|].
    rewrite lookup_insert_ne; [exact Hrow|]. intros ->. congruence.
  - destruct (Worker.fetch now id' db) as [r db'] eqn:Hf. cbn [fst snd].
    apply fetch_effect in Hf
      as [[-> _] | (row' & Hrow' & Hlt & -> & ->)]; [now left|].
    destruct (decide (id' = id)) as [->|Hne].
    + right. rewrite Hrow in Hrow'. injection Hrow' as <-.
      split; [apply lookup_delete_eq|]. now repeat split.
    + left. now rewrite lookup_delete_ne.
Qed.

(** Rows are never updated: a request leaves every row of the table as it
    is, except that a request on [/api/fetch/{id}] handled after the row's
    [expires_at] (the handler finds [expires_at < now]) deletes that row
    and is answered 410. *)
Theorem handle_row_kept (now : Z) (request : Handler.Request) (g : rng)
    (db : Worker.DB) (id : jsstring) (row : Worker.Row) :
  db !! id = Some row ->
  (Handler.handle now request g db).2 !! id = Some row
  \/ ((Handler.handle now request g db).2 !! id = None
      /\ Number.lt (Worker.expires_at row) (Number.of_Z now) = true
      /\ Handler.pathname request = js "/api/fetch/" ++ id
      /\ (Handler.handle now request g db).1.1
         = Handler.Route (Worker.Error 410)).
Proof. exact (handle_keeps_row now request g db id row). Qed.

Lemma handle_row_kept_witness :
  (Handler.handle 1001 fetch_request sample_rng sample_db).2 !! sample_id
  = Some sample_row
  \/ ((Handler.handle 1001 fetch_request sample_rng sample_db).2
        !! sample_id = None
      /\ Number.lt (Worker.expires_at sample_row) (Number.of_Z 1001) = true
      /\ Handler.pathname fetch_request = js "/api/fetch/" ++ sample_id
      /\ (Handler.handle 1001 fetch_request sample_rng sample_db).1.1
         = Handler.Route (Worker.Error 410)).
Proof.
  apply (handle_row_kept 1001 fetch_request sample_rng sample_db sample_id
           sample_row).
  exact sample_db_lookup.
Defined.

Lemma serve_cons (now : Z) (request : Handler.Request)
    (rest : list (Z * Handler.Request)) (g : rng) (db : Worker.DB) :
  (Handler.serve ((now, request) :: rest) g db).2
  = (Handler.serve rest (Handler.handle now request g db).1.2
       (Handler.handle now request g db).2).2.
Proof.
  cbn [Handler.serve].
  destruct (Handler.handle now request g db) as [[r g'] db'].
  cbn [fst snd]. now destruct (Handler.serve rest g' db') as [[rs g''] db''].
Qed.

(** A record stays in the table, unchanged, through every sequence of
    requests in which no request on [/api/fetch/{id}] is handled after its
    [expires_at] (at a time [now] with [expires_at < now]): other submits
    do not overwrite it, fetches before the expiry do not consume it, and
    there is no deletion in the background. *)
Theorem serve_row_kept (requests : list (Z * Handler.Request)) (g : rng)
    (db : Worker.DB) (id : jsstring) (row : Worker.Row) :
  db !! id = Some row ->
  Forall (fun ev : Z * Handler.Request =>
            Handler.pathname ev.2 = js "/api/fetch/" ++ id ->
            Number.lt (Worker.expires_at row) (Number.of_Z ev.1) = false)
    requests ->
  (Handler.serve requests g db).2 !! id = Some row.
Proof.
  intros Hrow Hall. revert g db Hrow.
  induction Hall as [|[now request] rest Hev _ IH]; intros g db Hrow;
    [exact Hrow|].
  rewrite serve_cons. apply IH.
  destruct (handle_keeps_row now request g db id row Hrow)
    as [H | (_ & Hlt & Hp & _)]; [exact H|].
  cbn [fst snd] in Hev. specialize (Hev Hp). congruence.
Qed.

Lemma serve_row_kept_witness :
  (Handler.serve
     [(999%Z, fetch_request); (5000%Z, submit_request);
      (1000%Z, fetch_request); (9999%Z, options_request)]
     sample_rng sample_db).2 !! sample_id
  = Some sample_row.
Proof.
  apply (serve_row_kept _ sample_rng sample_db sample_id sample_row).
  - exact sample_db_lookup.
  - repeat (apply List.Forall_cons;
              [cbn [fst snd Worker.expires_at sample_row]; intros H;
               first [discriminate H | vm_compute; reflexivity]|]).
    apply List.Forall_nil.
Defined.

Lemma handle_creates_row (now : Z) (request : Handler.Request) (g : rng)
    (db : Worker.DB) (id : jsstring) (row : Worker.Row) :
  db !! id = None ->
  (Handler.handle now request g db).2 !! id = Some row ->
  exists body,
    Handler.method request = js "POST"
    /\ Handler.pathname request = js "/api/submit"
    /\ Handler.json request = Some body
    /\ Worker.Request.cipherText body = Some (Worker.cipher_text row)
    /\ Worker.Request.iv body = Some (Worker.iv row)
    /\ Worker.created_at row = now
    /\ Handler.row_ok id row
    /\ (Handler.handle now request g db).1.1
       = Handler.Route (Worker.SubmitSuccess id (Worker.expires_at row))
    /\ exists ttl,
         Worker.Request.ttl body = Some ttl
         /\ Number.falsy ttl = false
         /\ Worker.expires_at row = Number.add (Number.of_Z now) ttl.
Proof.
  intros Hnone.
  destruct (handle_cases now request g db)
    as [-> | [-> | [-> | [(body & Hm & Hp & Hj & ->) | (id' & _ & _ & ->)]]]];
    cbn [fst snd]; try congruence.
  - destruct (Worker.submit now body g db) as [[r g'] db'] eqn:Hs.
    cbn [fst snd]. intros Hrow.
    apply submit_effect in Hs
      as [[-> _]
         | (id' & row' & -> & _ & -> & Hok & Hc & Hcc & Hii & Httl)];
      [congruence|].
    destruct (decide (id' = id)) as [->|Hne].
    + rewrite lookup_insert_eq in Hrow. injection Hrow as <-.
      exists body.
      split; [exact Hm|]. split; [exact Hp|]. split; [exact Hj|].
      split; [exact Hcc|]. split; [exact Hii|]. split; [exact Hc|].
      split; [exact Hok|]. split; [reflexivity|exact Httl].
    + rewrite lookup_insert_ne in Hrow by exact Hne. congruence.
  - destruct (Worker.fetch now id' db) as [r db'] eqn:Hf. cbn [fst snd].
    apply fetch_effect in Hf as [[-> _] | (row' & _ & _ & -> & _)];
      [congruence|].
    intros Hrow. apply lookup_delete_Some in Hrow as [_ Hrow]. congruence.
Qed.

(** Rows come into the table only through [POST /api/submit]: a row that
    is there after a request and was not there before holds the
    [cipherText] and [iv] of that request's body and the time at which it
    was handled, has an id of twelve URL-safe characters, its id and
    expiry are the ones the response returns, and the expiry is the sum of
    that time and the [ttl] of the body, a number other than zero. *)
Theorem handle_row_created (now : Z) (request : Handler.Request) (g : rng)
    (db : Worker.DB) (id : jsstring) (row : Worker.Row) :
  db !! id = None ->
  (Handler.handle now request g db).2 !! id = Some row ->
  exists body,
    Handler.method request = js "POST"
    /\ Handler.pathname request = js "/api/submit"
    /\ Handler.json request = Some body
    /\ Worker.Request.cipherText body = Some (Worker.cipher_text row)
    /\ Worker.Request.iv body = Some (Worker.iv row)
    /\ Worker.created_at row = now
    /\ Handler.row_ok id row
    /\ (Handler.handle now request g db).1.1
       = Handler.Route (Worker.SubmitSuccess id (Worker.expires_at row))
    /\ exists ttl,
         Worker.Request.ttl body = Some ttl
         /\ Number.falsy ttl = false
         /\ Worker.expires_at row = Number.add (Number.of_Z now) ttl.
Proof. exact (handle_creates_row now request g db id row). Qed.

Lemma handle_row_created_witness :
  exists body,
    Handler.method submit_request = js "POST"
    /\ Handler.pathname submit_request = js "/api/submit"
    /\ Handler.json submit_request = Some body
    /\ Worker.Request.cipherText body = Some (js "c1")
    /\ Worker.Request.iv body = Some (js "v1")
    /\ 1000%Z = 1000%Z
    /\ Handler.row_ok sample_id
         {| Worker.cipher_text := js "c1"; Worker.iv := js "v1";
            Worker.created_at := 1000;
            Worker.expires_at := Number.of_Z 4600 |}
    /\ (Handler.handle 1000 submit_request sample_rng ∅).1.1
       = Handler.Route (Worker.SubmitSuccess sample_id (Number.of_Z 4600))
    /\ exists ttl,
         Worker.Request.ttl body = Some ttl
         /\ Number.falsy ttl = false
         /\ Number.of_Z 4600 = Number.add (Number.of_Z 1000) ttl.
Proof.
  apply (handle_row_created 1000 submit_request sample_rng ∅ sample_id
           {| Worker.cipher_text := js "c1"; Worker.iv := js "v1";
              Worker.created_at := 1000;
              Worker.expires_at := Number.of_Z 4600 |}).
  - apply lookup_empty.
  - vm_compute. reflexivity.
Defined.

(** Starting from the empty table, after any sequence of requests every
    row has an id of twelve URL-safe characters and a non-empty
    [cipher_text] and [iv]. *)
Theorem serve_rows_ok (requests : list (Z * Handler.Request)) (g : rng)
    (id : jsstring) (row : Worker.Row) :
  (Handler.serve requests g ∅).2 !! id = Some row -> Handler.row_ok id row.
Proof.
  assert (Hgen : forall db,
             (forall i r, db !! i = Some r -> Handler.row_ok i r) ->
             forall g,
               (Handler.serve requests g db).2 !! id = Some row ->
               Handler.row_ok id row).
  { induction requests as [|[now request] rest IH]; intros db Hinv g0.
    - apply Hinv.
    - rewrite serve_cons. apply IH. intros i r Hr.
      destruct (db !! i) as [r0|] eqn:Hi.
      + destruct (handle_keeps_row now request g0 db i r0 Hi)
          as [H | (H & _)]; [|congruence].
        rewrite H in Hr. injection Hr as <-. now apply (Hinv i).
      + now destruct (handle_creates_row now request g0 db i r Hi Hr)
          as (_ & _ & _ & _ & _ & _ & _ & Hok & _). }
  apply Hgen. intros i r Hr. now rewrite lookup_empty in Hr.
Qed.

Lemma serve_rows_ok_witness :
  Handler.row_ok sample_id
    {| Worker.cipher_text := js "c1"; Worker.iv := js "v1";
       Worker.created_at := 1000; Worker.expires_at := Number.of_Z 4600 |}.
Proof.
  apply (serve_rows_ok [(1000%Z, submit_request); (1001%Z, fetch_request)]
           sample_rng).
  vm_compute. reflexivity.
Defined.

(** * The text path of the envelope codec on arbitrary strings *)

Lemma scalar_replacement : Encoding.scalar_value Encoding.REPLACEMENT.
Proof. unfold Encoding.scalar_value, Encoding.REPLACEMENT. lia. Qed.

Lemma scalar_plain (a : N) :
  Encoding.is_high a = false -> Encoding.is_low a = false -> a < 65536 ->
  Encoding.scalar_value a.
Proof.
  intros Hh%EncodingFacts.is_high_false Hl%EncodingFacts.is_low_false Ha.
  unfold Encoding.scalar_value. lia.
Qed.

Lemma scalar_pair (a b : N) :
  Encoding.is_high a = true -> Encoding.is_low b = true ->
  Encoding.scalar_value (65536 + (a - 55296) * 1024 + (b - 56320)).
Proof.
  intros Hh%EncodingFacts.is_high_true Hl%EncodingFacts.is_low_true.
  unfold Encoding.scalar_value. lia.
Qed.

(** The conversion to scalar values yields scalar values on every string of
    16-bit code units. *)
Lemma scalar_values_any (s : jsstring) :
  is_jsstring s -> Forall Encoding.scalar_value (Encoding.to_scalar_values s).
Proof.
  unfold is_jsstring.
  induction s as [|a|a b l IHl IHbl] using EncodingFacts.list_ind2;
    intros Hs.
  - constructor.
  - apply Forall_inv in Hs.
    rewrite EncodingFacts.to_scalar_values_cons.
    destruct (Encoding.is_high a) eqn:Hh;
      [constructor; [apply scalar_replacement|constructor]|].
    destruct (Encoding.is_low a) eqn:Hl;
      (constructor; [|constructor]);
      [apply scalar_replacement|now apply scalar_plain].
  - pose proof (Forall_inv Hs) as Ha. apply Forall_inv_tail in Hs.
    rewrite EncodingFacts.to_scalar_values_cons.
    destruct (Encoding.is_high a) eqn:Hh.
    + destruct (Encoding.is_low b) eqn:Hl.
      * constructor; [now apply scalar_pair|].
        apply IHl. now apply Forall_inv_tail in Hs.
      * constructor; [apply scalar_replacement|now apply IHbl].
    + destruct (Encoding.is_low a) eqn:Hl;
        (constructor; [|now apply IHbl]);
        [apply scalar_replacement|now apply scalar_plain].
Qed.

Lemma run_encode_any (s : jsstring) :
  is_jsstring s ->
  Encoding.run Encoding.initial (map Byte.to_N (Encoding.encode s))
  = Encoding.to_scalar_values s.
Proof.
  intros Hs. apply scalar_values_any in Hs. unfold Encoding.encode.
  rewrite EncodingFacts.to_N_of_octets
    by now apply EncodingFacts.encode_octets.
  now apply EncodingFacts.run_encode.
Qed.

Lemma code_units_strip_bom (cps : list N) :
  Forall Encoding.scalar_value cps ->
  flat_map Encoding.code_units (Encoding.strip_bom cps)
  = without_leading_bom (flat_map Encoding.code_units cps).
Proof.
  intros H. destruct H as [|c cps Hc _]; [reflexivity|].
  cbn [Encoding.strip_bom flat_map]. unfold Encoding.code_units at 2.
  unfold Encoding.scalar_value in Hc.
  destruct (N.ltb_spec c 65536) as [Hlt|Hge]; cbn [app without_leading_bom].
  - destruct (c =? Encoding.BOM); [reflexivity|].
    cbn [flat_map]. unfold Encoding.code_units at 1.
    apply N.ltb_lt in Hlt as ->. reflexivity.
  - unfold Encoding.BOM.
    replace (c =? 65279) with false by (symmetry; apply N.eqb_neq; lia).
    replace (55296 + (c - 65536) / 1024 =? 65279) with false
      by (symmetry; apply N.eqb_neq; dm_lia).
    cbn [flat_map]. unfold Encoding.code_units at 1.
    replace (c <? 65536) with false by (symmetry; apply N.ltb_ge; lia).
    reflexivity.
Qed.

(** [decoder.decode(encoder.encode(s))] on every string: [s] with its
    unpaired surrogates replaced by U+FFFD, without a leading U+FEFF. *)
Lemma decode_encode_any (s : jsstring) :
  is_jsstring s ->
  Encoding.decode (Encoding.encode s) = without_leading_bom (toWellFormed s).
Proof.
  intros Hs. unfold Encoding.decode, toWellFormed.
  rewrite run_encode_any by exact Hs.
  now apply code_units_strip_bom, scalar_values_any.
Qed.

(** Encrypting any string and decrypting the result with the same password
    never fails, and returns the string with every unpaired surrogate
    replaced by U+FFFD and without a leading U+FEFF, given that AES-GCM
    decryption undoes encryption under the same key and 12-byte nonce. *)
Theorem decrypt_encrypt_any_text
    (enc : Crypto.CryptoKey -> bytes -> bytes -> bytes)
    (dec : Crypto.CryptoKey -> bytes -> bytes -> option bytes)
    (text password : jsstring) (g : rng) :
  aead_correct_at 12 enc dec ->
  is_jsstring text ->
  exists env g',
    Crypto.encryptText enc text password g = Ok (env, g')
    /\ Crypto.decryptText dec (Crypto.cipherText env) (Crypto.iv env)
         password
       = Ok (without_leading_bom (toWellFormed text)).
Proof.
  intros Hc Hs.
  destruct (roundtrip_value enc dec text password g Hc)
    as (env & g' & He & Hd).
  exists env, g'. split; [exact He|].
  now rewrite Hd, decode_encode_any.
Qed.

(** A text of U+FEFF, an unpaired surrogate and a letter. *)
Lemma decrypt_encrypt_any_text_witness :
  exists env g',
    Crypto.encryptText ModelAEAD.encrypt [65279; 55296; 97] (js "pw")
      sample_rng = Ok (env, g')
    /\ Crypto.decryptText ModelAEAD.decrypt (Crypto.cipherText env)
         (Crypto.iv env) (js "pw")
       = Ok [65533; 97].
Proof.
  apply (decrypt_encrypt_any_text ModelAEAD.encrypt ModelAEAD.decrypt
           [65279; 55296; 97] (js "pw") sample_rng).
  - apply model_aead_correct.
  - repeat constructor.
Defined.




(** The sizes of the two fields: the [iv] field always has sixteen
    characters; when AES-GCM appends a tag of 16 bytes to the data, the
    [cipherText] field of a text of [n] UTF-8 bytes has
    [(4 (n + 32) + 2) / 3] characters, rounded down. *)
Theorem encryptText_field_lengths
    (enc : Crypto.CryptoKey -> bytes -> bytes -> bytes)
    (text password : jsstring) (g : rng) :
  (forall key iv data,
     List.length (enc key iv data) = (List.length data + 16)%nat) ->
  exists env g',
    Crypto.encryptText enc text password g = Ok (env, g')
    /\ List.length (Crypto.iv env) = 16%nat
    /\ List.length (Crypto.cipherText env)
       = ((4 * (List.length (Encoding.encode text) + 32) + 2) / 3)%nat.
Proof.
  intros Hlen. eexists _, _. split; [apply encryptText_value|].
  cbn [Crypto.cipherText Crypto.iv].
  rewrite !url_nopad_length, length_app, Hlen, drawn_salt_length,
    drawn_iv_length.
  split; [reflexivity|]. f_equal. lia.
Qed.

Lemma encryptText_field_lengths_witness :
  exists env g',
    Crypto.encryptText ModelAEAD.encrypt (js "hi") (js "pw") sample_rng
    = Ok (env, g')
    /\ List.length (Crypto.iv env) = 16%nat
    /\ List.length (Crypto.cipherText env)
       = ((4 * (List.length (Encoding.encode (js "hi")) + 32) + 2) / 3)%nat.
Proof.
  apply (encryptText_field_lengths ModelAEAD.encrypt).
  intros key iv data. unfold ModelAEAD.encrypt.
  now rewrite length_app, model_tag_length.
Defined.

(** * Identifiers, passwords and standard base64 *)

Lemma from_url_char (s : N) :
  s < 64 -> from_url (Base64.char_of_sextet s) = Base64.char_of_sextet s.
Proof.
  intros Hs.
  unfold from_url, Base64.char_of_sextet, Base64.PLUS, Base64.MINUS,
    Base64.SLASH, Base64.UNDERSCORE.
  cbv zeta. cases_bool; try reflexivity; lia.
Qed.

Lemma from_url_encode (b : bytes) :
  map from_url (Base64.encode (binary_of_bytes b))
  = Base64.encode (binary_of_bytes b).
Proof.
  unfold binary_of_bytes.
  induction b as [|x|x y|x y z b IH] using list_ind3;
    cbn [map Base64.encode];
    rewrite ?from_url_char by Base64Facts.sextet;
    try reflexivity.
  now rewrite IH.
Qed.

Lemma pad_loop_multiple (s : jsstring) :
  (List.length s mod 4 = 0)%nat -> pad_loop 3 s = s.
Proof. intros H. cbn [pad_loop]. now rewrite H. Qed.

(** [base64urlDecode] also reads standard base64: what [btoa] returns for
    a byte buffer, with ['+'], ['/'] and the ['='] padding, decodes to the
    bytes of the buffer. *)
Theorem base64urlDecode_standard (b : bytes) :
  exists s,
    Base64.btoa (binary_of_bytes b) = Ok s /\ base64urlDecode s = Ok b.
Proof.
  exists (Base64.encode (binary_of_bytes b)). split; [apply btoa_binary|].
  unfold base64urlDecode. cbv zeta.
  rewrite Base64Facts.replace_twice_from_url, from_url_encode.
  rewrite pad_loop_multiple by apply Base64Facts.encode_length.
  rewrite Base64Facts.atob_encode. cbn [bind].
  now rewrite map_byte_of_binary.
Qed.

Lemma firstn_whole {A} (n : nat) (l : list A) :
  List.length l = n -> firstn n l = l.
Proof. intros <-. apply firstn_all. Qed.

(** For a [length] that is a multiple of four, and so for the default 12,
    nothing of the encoding is cut off: the id is the whole base64url
    encoding of the random bytes drawn, and decoding the id gives these
    bytes back.  Two ids are equal only when the bytes drawn are. *)
Theorem generateId_keeps_entropy (length : N) (g : rng) :
  length mod 4 = 0 -> length <= 87380 ->
  exists (bytes : bytes) (id : jsstring) (g' : rng),
    getRandomValues (Worker.ceil_3_4 length) g = Ok (bytes, g')
    /\ Worker.generateId length g = Ok (id, g')
    /\ base64urlEncode bytes = Ok id
    /\ base64urlDecode id = Ok bytes.
Proof.
  intros Hm Hl.
  assert (Hq : Worker.ceil_3_4 length <= 65536)
    by (unfold Worker.ceil_3_4; dm_lia).
  set (n := N.to_nat (Worker.ceil_3_4 length)).
  set (bs := map (source g) (seq (drawn g) n)).
  assert (Hbs : List.length bs = n)
    by (unfold bs; now rewrite length_map, length_seq).
  exists bs, (url_nopad bs), {| source := source g; drawn := drawn g + n |}.
  split; [now apply getRandomValues_value|].
  split; [|split; [apply base64urlEncode_value
                  |apply base64urlDecode_url_nopad]].
  rewrite generateId_value by exact Hq. cbv zeta. fold n. fold bs.
  rewrite firstn_whole; [reflexivity|].
  rewrite url_nopad_length, Hbs. unfold n, Worker.ceil_3_4. dm_lia.
Qed.

Lemma generateId_keeps_entropy_witness :
  exists (bytes : bytes) (id : jsstring) (g' : rng),
    getRandomValues (Worker.ceil_3_4 12) sample_rng = Ok (bytes, g')
    /\ Worker.generateId 12 sample_rng = Ok (id, g')
    /\ base64urlEncode bytes = Ok id
    /\ base64urlDecode id = Ok bytes.
Proof.
  apply (generateId_keeps_entropy 12 sample_rng).
  - reflexivity.
  - lia.
Defined.

Lemma chars_NoDup : NoDup Home.chars.
Proof.
  assert (H : forall l : list N,
             (fix nodup (l : list N) : bool :=
                match l with
                | [] => true
                | x :: r => negb (existsb (N.eqb x) r) && nodup r
                end) l = true -> NoDup l).
  { induction l as [|x r IH]; [constructor|].
    intros [Hx Hr]%andb_true_iff. constructor; [|now apply IH].
    intros Hin. apply negb_true_iff in Hx.
    assert (existsb (N.eqb x) r = true); [|congruence].
    apply existsb_exists. exists x. split; [|apply N.eqb_refl].
    now apply list_elem_of_In. }
  apply H. reflexivity.
Qed.

Lemma map_seq_eq {A} (h1 h2 : nat -> A) (n a b : nat) :
  map h1 (seq a n) = map h2 (seq b n)
  <-> forall i, (i < n)%nat -> h1 (a + i)%nat = h2 (b + i)%nat.
Proof.
  revert a b. induction n as [|n IH]; intros a b; cbn [seq map].
  - split; [intros _ i Hi; lia|reflexivity].
  - split.
    + intros [= H0 Ht] [|i] Hi; [now rewrite !Nat.add_0_r|].
      rewrite !Nat.add_succ_r. apply (proj1 (IH (S a) (S b)) Ht). lia.
    + intros H. f_equal.
      * specialize (H 0%nat). rewrite !Nat.add_0_r in H. apply H. lia.
      * apply IH. intros i Hi. specialize (H (S i)).
        rewrite !Nat.add_succ_r in H. apply H. lia.
Qed.

(** The characters of a password depend on the random bytes only through
    their six low bits, and on nothing less: two calls return the same
    password exactly when the sixteen bytes drawn agree modulo 64. *)
Theorem generateRandomPassword_six_bits (g1 g2 : rng) :
  exists password1 password2 g1' g2',
    Home.generateRandomPassword g1 = Ok (password1, g1')
    /\ Home.generateRandomPassword g2 = Ok (password2, g2')
    /\ (password1 = password2
        <-> forall i, (i < 16)%nat ->
              Byte.to_N (source g1 (drawn g1 + i)%nat) mod 64
              = Byte.to_N (source g2 (drawn g2 + i)%nat) mod 64).
Proof.
  set (f := fun v : byte =>
              Home.char_at Home.chars
                (Byte.to_N v mod N.of_nat (List.length Home.chars))).
  exists (map f (map (source g1) (seq (drawn g1) 16))),
    (map f (map (source g2) (seq (drawn g2) 16))),
    {| source := source g1; drawn := drawn g1 + 16 |},
    {| source := source g2; drawn := drawn g2 + 16 |}.
  split; [reflexivity|]. split; [reflexivity|].
  assert (Hf : forall v w,
             f v = f w <-> Byte.to_N v mod 64 = Byte.to_N w mod 64).
  { intros v w. unfold f, Home.char_at. rewrite chars_length.
    change (N.of_nat 64) with 64. split; [|now intros ->].
    intros H. apply Stdlib.Lists.List.NoDup_nth in H.
    - now apply N2Nat.inj.
    - apply NoDup_ListNoDup, chars_NoDup.
    - rewrite chars_length. pose proof (to_N_lt v). dm_lia.
    - rewrite chars_length. pose proof (to_N_lt w). dm_lia. }
  rewrite !map_map.
  etransitivity; [apply map_seq_eq|]. cbv beta. split.
  - intros H i Hi. apply Hf, H, Hi.
  - intros H i Hi. apply Hf, H, Hi.
Qed.

Lemma chars_four_bytes (c : N) :
  In c Home.chars ->
  List.length
    (List.filter
       (fun v => Home.char_at Home.chars
                   (Byte.to_N v mod N.of_nat (List.length Home.chars)) =? c)
       all_bytes)
  = 4%nat.
Proof.
  intros Hc.
  assert (H : forallb
                (fun c =>
                   Nat.eqb
                     (List.length
                        (List.filter
                           (fun v =>
                              Home.char_at Home.chars
                                (Byte.to_N v
                                 mod N.of_nat (List.length Home.chars)) =? c)
                           all_bytes)) 4)
                Home.chars = true) by (vm_compute; reflexivity).
  rewrite forallb_forall in H. now apply Nat.eqb_eq, H.
Qed.

Lemma nth_error_map_seq {A} (h : nat -> A) (a n i : nat) :
  (i < n)%nat -> nth_error (map h (seq a n)) i = Some (h (a + i)%nat).
Proof.
  revert a i. induction n as [|n IH]; intros a i Hi; [lia|].
  destruct i as [|i]; cbn [seq map nth_error].
  - now rewrite Nat.add_0_r.
  - rewrite IH by lia. now rewrite Nat.add_succ_r.
Qed.

(** The character at position [i] of a password is read off the byte at
    position [i] of the draw. *)
Lemma password_char_value (g : rng) (i : nat) :
  (i < 16)%nat ->
  password_char g i
  = Some (Home.char_at Home.chars
            (Byte.to_N (source g (drawn g + i)%nat)
             mod N.of_nat (List.length Home.chars))).
Proof.
  intros Hi. unfold password_char, Home.generateRandomPassword.
  rewrite getRandomValues_value by (unfold Home.length; lia).
  cbn [bind]. rewrite map_map.
  now rewrite (nth_error_map_seq _ (drawn g) (N.to_nat Home.length) i Hi).
Qed.

(** No character is favoured: whatever the other bytes of the draw are, of
    the 256 values of the byte at position [i] exactly four make
    [generateRandomPassword] return a password with the character [c] of
    [chars] at position [i]. *)
Theorem generateRandomPassword_unbiased (g : rng) (i : nat) (c : N) :
  (i < 16)%nat -> In c Home.chars ->
  List.length
    (List.filter
       (fun v => bool_decide (password_char (with_byte g i v) i = Some c))
       all_bytes)
  = 4%nat.
Proof.
  intros Hi Hc. rewrite <- (chars_four_bytes c Hc). f_equal.
  apply List.filter_ext. intros v.
  rewrite password_char_value by exact Hi.
  cbn [with_byte source drawn]. rewrite Nat.eqb_refl.
  destruct (N.eqb_spec
              (Home.char_at Home.chars
                 (Byte.to_N v mod N.of_nat (List.length Home.chars))) c)
    as [->|Hne].
  - now apply bool_decide_eq_true.
  - apply bool_decide_eq_false. congruence.
Qed.

Lemma generateRandomPassword_unbiased_witness :
  List.length
    (List.filter
       (fun v =>
          bool_decide (password_char (with_byte sample_rng 3 v) 3 = Some 95))
       all_bytes)
  = 4%nat.
Proof.
  apply (generateRandomPassword_unbiased sample_rng 3 95); [lia|].
  cbn. tauto.
Defined.

(** * The CORS headers *)

Lemma endsWith_spec (s suffix : jsstring) :
  endsWith s suffix = true <-> exists prefix, s = prefix ++ suffix.
Proof.
  unfold endsWith. rewrite bool_decide_eq_true. split.
  - intros H. exists (firstn (List.length s - List.length suffix) s).
    rewrite <- (firstn_skipn (List.length s - List.length suffix) s) at 1.
    now rewrite H.
  - intros [prefix ->]. rewrite length_app.
    replace (List.length prefix + List.length suffix - List.length suffix)%nat
      with (List.length prefix) by lia.
    rewrite skipn_app, skipn_all, Nat.sub_diag. reflexivity.
Qed.

Lemma includes_spec (l : list jsstring) (x : jsstring) :
  Cors.includes l x = true <-> In x l.
Proof.
  unfold Cors.includes. rewrite existsb_exists. split.
  - intros (y & Hy & ->%bool_decide_eq_true). exact Hy.
  - intros H. exists x. split; [exact H|]. now apply bool_decide_eq_true.
Qed.

(** The [Access-Control-Allow-Origin] header.  With ["*"] in the list, as
    configured, it is ["*"] for every request.  Without, it is the origin
    of the request when [isOriginAllowed] accepts it; an origin that is
    refused gets the header of a request without [Origin], which is the
    first entry of the list, or ["*"] when there is none. *)
Theorem getCorsHeaders_origin (hostname : jsstring -> option jsstring)
    (allow_origins : list jsstring) (origin : option jsstring) :
  let header o :=
    Cors.Access_Control_Allow_Origin
      (Cors.getCorsHeaders hostname allow_origins o) in
  (In (js "*") allow_origins -> header origin = js "*")
  /\ (~ In (js "*") allow_origins ->
      Cors.isOriginAllowed hostname allow_origins origin = true ->
      origin = Some (header origin))
  /\ (Cors.isOriginAllowed hostname allow_origins origin = false ->
      header origin = header None)
  /\ (header None = js "*"
      \/ exists rest, allow_origins = header None :: rest).
Proof.
  cbv zeta. unfold Cors.getCorsHeaders. cbv zeta.
  cbn [Cors.Access_Control_Allow_Origin].
  destruct (Cors.includes allow_origins (js "*")) eqn:Hi.
  - split; [reflexivity|]. split; [|split; [reflexivity|now left]].
    intros Hn. apply includes_spec in Hi. now destruct Hn.
  - split; [intros H%includes_spec; congruence|].
    split; [|split].
    + intros _ Ha. destruct origin as [[|c o]|];
        [discriminate Ha| |discriminate Ha].
      match goal with
      | |- context [if ?b then _ else _] => replace b with true
      end.
      reflexivity.
    + intros Ha. destruct origin as [[|c o]|]; try reflexivity.
      match goal with
      | |- context [if ?b then _ else _] => replace b with false
      end.
      reflexivity.
    + destruct allow_origins as [|[|c f] rest];
        [now left|now left|]. right. now exists rest.
Qed.

(** An origin that is refused and is the first entry of the list is the
    header all the same: with the list [["https://a.com"]] the origin
    [https://a.com], whose host is [a.com], is not allowed. *)
Lemma getCorsHeaders_first_entry :
  Cors.isOriginAllowed (fun _ => Some (js "a.com")) [js "https://a.com"]
    (Some (js "https://a.com")) = false
  /\ Cors.Access_Control_Allow_Origin
       (Cors.getCorsHeaders (fun _ => Some (js "a.com")) [js "https://a.com"]
          (Some (js "https://a.com")))
     = js "https://a.com".
Proof. split; reflexivity. Qed.

Lemma isOriginAllowed_host_iff (hostname : jsstring -> option jsstring)
    (allow_origins : list jsstring) (origin host : jsstring) :
  ~ In (js "*") allow_origins -> origin <> [] ->
  hostname origin = Some host ->
  (Cors.isOriginAllowed hostname allow_origins (Some origin) = true
   <-> exists allowed,
         In allowed allow_origins
         /\ (host = allowed
             \/ exists sub, host = sub ++ js "." ++ allowed)).
Proof.
  intros Hstar Ho Hh. unfold Cors.isOriginAllowed.
  destruct origin as [|c o]; [now destruct Ho|].
  destruct (Cors.includes allow_origins (js "*")) eqn:Hi;
    [apply includes_spec in Hi; now destruct Hstar|].
  rewrite existsb_exists. rewrite Hh.
  split.
  - intros (allowed & Hin & Hm). exists allowed. split; [exact Hin|].
    apply orb_true_iff in Hm as [Hm|Hm].
    + left. now apply bool_decide_eq_true in Hm.
    + right. now apply endsWith_spec in Hm.
  - intros (allowed & Hin & Hm). exists allowed. split; [exact Hin|].
    apply orb_true_iff. destruct Hm as [->|Hm].
    + left. now apply bool_decide_eq_true.
    + right. now apply endsWith_spec.
Qed.

(** Without ["*"] in the list, an origin whose URL has the host [host] is
    allowed exactly when [host] is an entry of the list or ends with a dot
    followed by an entry. *)
Theorem isOriginAllowed_hosts (hostname : jsstring -> option jsstring)
    (allow_origins : list jsstring) (origin host : jsstring) :
  ~ In (js "*") allow_origins -> origin <> [] ->
  hostname origin = Some host ->
  (Cors.isOriginAllowed hostname allow_origins (Some origin) = true
   <-> exists allowed,
         In allowed allow_origins
         /\ (host = allowed
             \/ exists sub, host = sub ++ js "." ++ allowed)).
Proof. exact (isOriginAllowed_host_iff hostname allow_origins origin host). Qed.

Lemma isOriginAllowed_hosts_witness :
  Cors.isOriginAllowed (fun _ => Some (js "app.example.com"))
    [js "example.com"] (Some (js "https://app.example.com")) = true
  <-> exists allowed,
        In allowed [js "example.com"]
        /\ (js "app.example.com" = allowed
            \/ exists sub, js "app.example.com" = sub ++ js "." ++ allowed).
Proof.
  apply (isOriginAllowed_hosts (fun _ => Some (js "app.example.com"))
           [js "example.com"] (js "https://app.example.com")
           (js "app.example.com")).
  - intros [H|[]]. discriminate H.
  - discriminate.
  - reflexivity.
Defined.

(** A host that has an entry of the list as a suffix, but not after a dot,
    and is not itself in the list, is not allowed. *)
Theorem isOriginAllowed_suffix_only (hostname : jsstring -> option jsstring)
    (allowed origin front : jsstring) (last : N) :
  allowed <> js "*" -> origin <> [] -> last <> 46 ->
  hostname origin = Some (front ++ [last] ++ allowed) ->
  Cors.isOriginAllowed hostname [allowed] (Some origin) = false.
Proof.
  intros Hstar Ho Hlast Hh.
  destruct (Cors.isOriginAllowed hostname [allowed] (Some origin)) eqn:Ha;
    [|reflexivity].
  apply (isOriginAllowed_host_iff hostname [allowed] origin
           (front ++ [last] ++ allowed)) in Ha;
    [|intros [Hs|[]]; now destruct Hstar|exact Ho|exact Hh].
  destruct Ha as (a & [<-|[]] & [Heq|[sub Heq]]).
  - apply (f_equal (@List.length N)) in Heq.
    rewrite !length_app in Heq. cbn [List.length] in Heq. lia.
  - change (js "." ++ allowed) with ([46] ++ allowed) in Heq.
    rewrite !app_assoc in Heq. apply app_inv_tail in Heq.
    apply app_inj_tail in Heq as [_ Heq]. congruence.
Qed.

Lemma isOriginAllowed_suffix_only_witness :
  Cors.isOriginAllowed (fun _ => Some (js "evilexample.com"))
    [js "example.com"] (Some (js "https://evilexample.com")) = false.
Proof.
  apply (isOriginAllowed_suffix_only (fun _ => Some (js "evilexample.com"))
           (js "example.com") (js "https://evilexample.com") (js "evi") 108).
  - discriminate.
  - discriminate.
  - discriminate.
  - reflexivity.
Defined.

(** * The pages and the worker together *)

Lemma split_without (sep : N) (s : jsstring) :
  ~ In sep s -> split sep s = [s].
Proof.
  induction s as [|c s IH]; [reflexivity|]. intros H. cbn [split].
  destruct (N.eqb_spec c sep) as [->|Hc]; [destruct H; now left|].
  rewrite IH; [reflexivity|]. intros Hin. apply H. now right.
Qed.

Lemma split_app (sep : N) (a b : jsstring) :
  ~ In sep a -> split sep (a ++ sep :: b) = a :: split sep b.
Proof.
  induction a as [|c a IH]; intros H.
  - cbn [app split]. now rewrite N.eqb_refl.
  - cbn [app split].
    destruct (N.eqb_spec c sep) as [->|Hc]; [destruct H; now left|].
    rewrite IH; [reflexivity|]. intros Hin. apply H. now right.
Qed.

Lemma split_length (sep : N) (s : jsstring) :
  List.length (split sep s) = S (count_occ N.eq_dec s sep).
Proof.
  induction s as [|c s IH]; [reflexivity|]. cbn [split count_occ].
  destruct (N.eqb_spec c sep) as [Hc|Hc]; destruct (N.eq_dec c sep);
    try congruence.
  - cbn [List.length]. now rewrite IH.
  - destruct (split sep s); cbn [List.length] in *; [discriminate|exact IH].
Qed.

(** A route parameter whose pieces between ['~'] are not exactly two. *)
Lemma fetchAndDecrypt_invalid
    (dec : Crypto.CryptoKey -> bytes -> bytes -> option bytes)
    (workerUrl : jsstring) (World : Type)
    (http_get : jsstring -> World -> result Http.Response * World)
    (idKey : jsstring) (w : World) :
  idKey <> [] -> List.length (split TILDE idKey) <> 2%nat ->
  ViewNote.fetchAndDecrypt dec workerUrl World http_get (Some idKey) w
  = (ViewNote.Failed
       (js "Invalid URL format. Expected format: /{id}~{key}"), w).
Proof.
  intros Hne Hl. unfold ViewNote.fetchAndDecrypt.
  destruct idKey as [|c s]; [now destruct Hne|].
  destruct (split TILDE (c :: s)) as [|a [|b [|d l]]]; try reflexivity.
  now destruct Hl.
Qed.

(** A route parameter [id~key]. *)
Lemma fetchAndDecrypt_link
    (dec : Crypto.CryptoKey -> bytes -> bytes -> option bytes)
    (workerUrl : jsstring) (World : Type)
    (http_get : jsstring -> World -> result Http.Response * World)
    (id key : jsstring) (w : World) :
  ~ In TILDE id -> ~ In TILDE key ->
  ViewNote.fetchAndDecrypt dec workerUrl World http_get
    (Some (id ++ js "~" ++ key)) w
  = let failed :=
      ViewNote.Failed
        (js "Failed to decrypt note. The key might be incorrect.") in
    match http_get (ViewNote.fetchUrl workerUrl id) w with
    | (Throw _, w) => (failed, w)
    | (Ok response, w) =>
        if negb (Http.ok response) then
          if Http.status response =? 404
          then (ViewNote.Failed (js "Note not found or has expired"), w)
          else (ViewNote.Failed (js "Failed to fetch note"), w)
        else
          match Http.data response with
          | Some {| Http.cipher_text := Some cipher_text;
                    Http.iv := Some iv |} =>
              match Crypto.decryptText dec cipher_text iv key with
              | Ok decrypted => (ViewNote.Shown decrypted, w)
              | Throw _ => (failed, w)
              end
          | _ => (failed, w)
          end
    end.
Proof.
  intros Hi Hk. unfold ViewNote.fetchAndDecrypt.
  assert (Hs : split TILDE (id ++ js "~" ++ key) = [id; key]).
  { change (js "~" ++ key) with (TILDE :: key).
    rewrite split_app by exact Hi. now rewrite split_without. }
  rewrite Hs. destruct id; reflexivity.
Qed.

Lemma generateRandomPassword_safe (g g' : rng) (password : jsstring) :
  Home.generateRandomPassword g = Ok (password, g') ->
  forallb url_safe password = true.
Proof.
  unfold Home.generateRandomPassword.
  rewrite getRandomValues_value by (unfold Home.length; lia).
  cbn [bind]. intros H.
  assert (Hp : password
               = map (fun v =>
                        Home.char_at Home.chars
                          (Byte.to_N v mod N.of_nat (List.length Home.chars)))
                   (map (source g) (seq (drawn g) (N.to_nat Home.length))))
    by congruence.
  rewrite Hp. clear H Hp.
  apply forallb_forall. intros c Hc. apply in_map_iff in Hc.
  destruct Hc as (v & <- & _).
  pose proof chars_url_safe as Hs. rewrite forallb_forall in Hs.
  apply Hs. unfold Home.char_at. apply nth_In.
  rewrite chars_length. pose proof (to_N_lt v).
  change (N.of_nat 64) with 64. dm_lia.
Qed.

Lemma generateRandomPassword_length (g g' : rng) (password : jsstring) :
  Home.generateRandomPassword g = Ok (password, g') ->
  List.length password = 16%nat.
Proof.
  unfold Home.generateRandomPassword.
  rewrite getRandomValues_value by (unfold Home.length; lia).
  cbn [bind]. intros H.
  assert (Hp : password
               = map (fun v =>
                        Home.char_at Home.chars
                          (Byte.to_N v mod N.of_nat (List.length Home.chars)))
                   (map (source g) (seq (drawn g) (N.to_nat Home.length))))
    by congruence.
  rewrite Hp. now rewrite !length_map, length_seq.
Qed.

Lemma generateId_default_length (g g' : rng) (id : jsstring) :
  Worker.generateId 12 g = Ok (id, g') -> List.length id = 12%nat.
Proof.
  rewrite generateId_value by (unfold Worker.ceil_3_4; dm_lia).
  cbv zeta.
  set (bs := map (source g) (seq (drawn g) (N.to_nat (Worker.ceil_3_4 12)))).
  intros H.
  assert (Hid : id = firstn (N.to_nat 12) (url_nopad bs)) by congruence.
  rewrite Hid. apply firstn_length_le. rewrite url_nopad_length.
  unfold bs. rewrite length_map, length_seq. reflexivity.
Qed.

(** [password || generateRandomPassword()] never fails: it is the page's
    password when there is one, else sixteen URL-safe characters. *)
Lemma encryptionPassword_value (password : jsstring) (g : rng) :
  exists key g0,
    match password with
    | [] => Home.generateRandomPassword g
    | _ :: _ => Ok (password, g)
    end = Ok (key, g0)
    /\ (password = [] -> forallb url_safe key = true)
    /\ (password <> [] -> key = password).
Proof.
  destruct password as [|p ps].
  - destruct (Home.generateRandomPassword g) as [[key g0]|e] eqn:Hg.
    + exists key, g0. split; [reflexivity|]. split; [|now intros []].
      intros _. now apply generateRandomPassword_safe in Hg.
    + unfold Home.generateRandomPassword in Hg.
      rewrite getRandomValues_value in Hg by (unfold Home.length; lia).
      discriminate Hg.
  - exists (p :: ps), g. split; [reflexivity|]. split; [discriminate|].
    reflexivity.
Qed.

(** An accepted submit: the row it inserts. *)
Lemma submit_success (now : Z) (body : Worker.Request.body) (g g' : rng)
    (db db' : Worker.DB) (id : jsstring) (expiresAt : Number.number) :
  Worker.submit now body g db = (Worker.SubmitSuccess id expiresAt, g', db')
  -> exists ttl cipherText iv,
       Worker.Request.ttl body = Some ttl
       /\ Worker.Request.cipherText body = Some cipherText
       /\ Worker.Request.iv body = Some iv
       /\ Number.falsy ttl = false
       /\ forallb url_safe id = true
       /\ db' = <[id := {| Worker.cipher_text := cipherText;
                           Worker.iv := iv; Worker.created_at := now;
                           Worker.expires_at :=
                             Number.add (Number.of_Z now) ttl |}]> db.
Proof.
  intros Hs.
  destruct (Worker.not_number (Worker.Request.ttl body)) eqn:Ht;
    [rewrite submit_rejected in Hs by (now left); discriminate Hs|].
  destruct (Worker.not_string (Worker.Request.cipherText body)) eqn:Hc;
    [rewrite submit_rejected in Hs by (right; now left); discriminate Hs|].
  destruct (Worker.not_string (Worker.Request.iv body)) eqn:Hi;
    [rewrite submit_rejected in Hs by (right; now right); discriminate Hs|].
  destruct (submit_accepted now body g db Ht Hc Hi)
    as (t & c & i & Htt & Hne & Hcc & Hii & Heq).
  rewrite Heq in Hs.
  rewrite generateId_value in Hs by (unfold Worker.ceil_3_4; dm_lia).
  cbv zeta in Hs.
  set (bs := map (source g) (seq (drawn g) (N.to_nat (Worker.ceil_3_4 12))))
    in Hs.
  assert (Hsafe : forallb url_safe (firstn (N.to_nat 12) (url_nopad bs))
                  = true) by apply forallb_firstn, url_nopad_safe.
  set (id0 := firstn (N.to_nat 12) (url_nopad bs)) in Hs, Hsafe.
  match type of Hs with
  | match ?x with _ => _ end = _ => destruct x eqn:Hl
  end; [discriminate Hs|].
  injection Hs as <- <- <- <-. exists t, c, i.
  repeat (split; [assumption || reflexivity|]). reflexivity.
Qed.

(** A [POST] of a page sent to [/api/submit] is answered by [submit]. *)
Lemma worker_post_submit (pathname : jsstring -> jsstring) (now : Z)
    (url : jsstring) (body : Worker.Request.body) (w : rng * Worker.DB) :
  pathname url = js "/api/submit" ->
  worker_post pathname now url body w
  = let '(r, g, db) := Worker.submit now body (fst w) (snd w) in
    (Ok (Handler.response (Handler.Route r)), (g, db)).
Proof.
  intros Hp. unfold worker_post, Handler.handle. cbv zeta.
  cbn [Handler.method Handler.pathname Handler.json]. rewrite Hp.
  change (bool_decide (js "POST" = js "OPTIONS")) with false.
  change (bool_decide (js "/api/submit" = js "/api/submit")) with true.
  change (bool_decide (js "POST" = js "POST")) with true.
  cbv beta iota. cbn [andb].
  now destruct (Worker.submit now body w.1 w.2) as [[r g] db].
Qed.

(** A [GET] of a page sent to [/api/fetch/{id}] is answered by [fetch]. *)
Lemma worker_get_fetch (pathname : jsstring -> jsstring) (now : Z)
    (url id : jsstring) (w : rng * Worker.DB) :
  pathname url = js "/api/fetch/" ++ id ->
  worker_get pathname now url w
  = let '(r, db) := Worker.fetch now id (snd w) in
    (Ok (Handler.response (Handler.Route r)), (fst w, db)).
Proof.
  intros Hp. unfold worker_get, Handler.handle. cbv zeta.
  cbn [Handler.method Handler.pathname Handler.json]. rewrite Hp.
  change (bool_decide (js "GET" = js "OPTIONS")) with false.
  change (bool_decide (js "GET" = js "POST")) with false.
  rewrite andb_false_r. cbv beta iota.
  replace (startsWith (js "/api/fetch/" ++ id) (js "/api/fetch/"))
    with true by (symmetry; now apply bool_decide_eq_true).
  change (skipn 11 (js "/api/fetch/" ++ id)) with id.
  now destruct (Worker.fetch now id w.2) as [r db].
Qed.

(** A number that comes out of JSON and is not zero went in unchanged. *)
Lemma json_truthy (x y : Number.number) :
  Number.json x = Some y -> Number.falsy y = false -> y = x.
Proof.
  destruct x as [s|s| |s m e]; cbn [Number.json]; try discriminate;
    intros [= <-]; [discriminate|reflexivity].
Qed.

(** What stands behind a result dialog of [Home] when the worker answers
    its request: the worker's new row and the link to it. *)
Lemma handleEncryptAndSubmit_result
    (enc : Crypto.CryptoKey -> bytes -> bytes -> bytes)
    (pathname : jsstring -> jsstring) (workerUrl : jsstring)
    (toDataURL : jsstring -> result jsstring)
    (content password baseUrl : jsstring) (ttl : Number.number) (now : Z)
    (g g' : rng) (w w' : rng * Worker.DB) (url qr : jsstring) :
  pathname (Home.submitUrl workerUrl) = js "/api/submit" ->
  Home.handleEncryptAndSubmit enc workerUrl (rng * Worker.DB)
    (worker_post pathname now) toDataURL content password ttl baseUrl g w
  = (Home.Result url qr, g', w') ->
  exists id key g0 env,
    url = baseUrl ++ js "/" ++ id ++ js "~" ++ key
    /\ forallb url_safe id = true
    /\ (password = [] -> forallb url_safe key = true)
    /\ (password <> [] -> key = password)
    /\ Crypto.encryptText enc content key g0 = Ok (env, g')
    /\ snd w' = <[id := {| Worker.cipher_text := Crypto.cipherText env;
                           Worker.iv := Crypto.iv env;
                           Worker.created_at := now;
                           Worker.expires_at :=
                             Number.add (Number.of_Z now) ttl |}]> (snd w).
Proof.
  intros Hp H. unfold Home.handleEncryptAndSubmit in H.
  destruct content as [|c content]; [discriminate H|]. cbv zeta in H.
  destruct (encryptionPassword_value password g)
    as (key & g0 & Hg & Hgen & Hown).
  rewrite Hg in H.
  destruct (Crypto.encryptText enc (c :: content) key g0)
    as [[env g1]|e] eqn:He; [|discriminate H].
  rewrite worker_post_submit in H by exact Hp.
  destruct (Worker.submit now _ w.1 w.2) as [[r gw] db] eqn:Hs.
  cbv beta iota zeta in H.
  destruct r as [id expiresAt|id ct i expiresAt|s].
  - cbn in H.
    destruct (toDataURL _) as [q|e] eqn:Hq; [|discriminate H].
    injection H as <- <- <- <-.
    apply submit_success in Hs
      as (t & ct & i & Ht & Hc & Hi & Hne & Hsafe & Hdb).
    cbn [Worker.Request.ttl Worker.Request.cipherText Worker.Request.iv]
      in Ht, Hc, Hi.
    apply (json_truthy ttl t Ht) in Hne as ->.
    injection Hc as <-. injection Hi as <-.
    exists id, key, g0, env.
    split; [reflexivity|]. split; [exact Hsafe|].
    split; [exact Hgen|]. split; [exact Hown|]. split; [exact He|exact Hdb].
  - exfalso. unfold Worker.submit in Hs.
    repeat match type of Hs with
           | (if ?b then _ else _) = _ => destruct b
           | match ?x with _ => _ end = _ => destruct x
           end; discriminate Hs.
  - cbn [Handler.response Http.data] in H.
    match type of H with
    | (if ?b then _ else _) = _ => destruct b
    end; discriminate H.
Qed.

Lemma url_nopad_not_empty (b : bytes) :
  b <> [] -> Worker.not_string (Some (url_nopad b)) = false.
Proof.
  intros Hb. destruct (url_nopad b) as [|c s] eqn:E; [|reflexivity].
  apply (f_equal (@List.length N)) in E. rewrite url_nopad_length in E.
  destruct b as [|x b]; [now destruct Hb|].
  cbn [List.length] in E. dm_lia.
Qed.

(** When [Home] ends with the result dialog. *)
Lemma handleEncryptAndSubmit_shows
    (enc : Crypto.CryptoKey -> bytes -> bytes -> bytes)
    (pathname : jsstring -> jsstring) (workerUrl : jsstring)
    (toDataURL : jsstring -> result jsstring)
    (content password baseUrl : jsstring) (ttl : Number.number) (now : Z)
    (g : rng) (w : rng * Worker.DB) :
  pathname (Home.submitUrl workerUrl) = js "/api/submit" ->
  content <> [] -> Number.falsy ttl = false -> Number.json ttl = Some ttl ->
  (forall u,
      List.length u
      = (List.length baseUrl + 14
         + match password with
           | [] => 16
           | _ :: _ => List.length password
           end)%nat ->
      exists q, toDataURL u = Ok q) ->
  (forall id gw, Worker.generateId 12 (fst w) = Ok (id, gw) ->
                 snd w !! id = None) ->
  exists url qr g' w',
    Home.handleEncryptAndSubmit enc workerUrl (rng * Worker.DB)
      (worker_post pathname now) toDataURL content password ttl baseUrl g w
    = (Home.Result url qr, g', w').
Proof.
  intros Hp Hc Ht Hj Hq Hfree. unfold Home.handleEncryptAndSubmit.
  destruct content as [|c content]; [now destruct Hc|]. cbv zeta.
  destruct (encryptionPassword_value password g)
    as (key & g0 & Hg & _ & Hown).
  assert (Hkey : List.length key
                 = match password with
                   | [] => 16%nat
                   | _ :: _ => List.length password
                   end).
  { destruct password as [|p ps].
    - now apply generateRandomPassword_length in Hg.
    - now rewrite (Hown ltac:(discriminate)). }
  rewrite Hg. rewrite encryptText_value. cbv zeta.
  rewrite worker_post_submit by exact Hp.
  cbn [Crypto.cipherText Crypto.iv].
  rewrite Hj.
  set (body := {| Worker.Request.ttl := Some ttl;
                  Worker.Request.cipherText := _;
                  Worker.Request.iv := _ |}).
  assert (Hn : Worker.not_number (Worker.Request.ttl body) = false)
    by exact Ht.
  assert (Hs1 : Worker.not_string (Worker.Request.cipherText body) = false).
  { apply url_nopad_not_empty. intros E.
    apply (f_equal (@List.length byte)) in E.
    rewrite length_app, drawn_salt_length in E. discriminate E. }
  assert (Hs2 : Worker.not_string (Worker.Request.iv body) = false).
  { apply url_nopad_not_empty. intros E.
    apply (f_equal (@List.length byte)) in E.
    rewrite drawn_iv_length in E. discriminate E. }
  destruct (submit_accepted now body w.1 w.2 Hn Hs1 Hs2)
    as (t & ct & i & _ & _ & _ & _ & Heq).
  rewrite Heq.
  destruct (Worker.generateId 12 w.1) as [[id gw]|e] eqn:Hid;
    [|rewrite generateId_value in Hid by (unfold Worker.ceil_3_4; dm_lia);
      discriminate Hid].
  rewrite (Hfree id gw eq_refl).
  cbn [Handler.response Http.ok Http.status Http.data Http.id].
  change ((200 <=? 200) && (200 <=? 299)) with true. cbv beta iota.
  match goal with
  | |- context [toDataURL ?u] => destruct (Hq u) as [q ->]
  end; [|now eexists _, _, _, _].
  rewrite !length_app, Hkey, (generateId_default_length _ _ _ Hid).
  cbn [List.length js map String.list_ascii_of_string]. lia.
Qed.

(** A note shared from [Home] can be read in [ViewNote] until it expires.
    When the page has some content, a [ttl] that JSON carries and that
    is not zero, and a password without ['~'] (or none, so that one is
    generated), the worker draws an
    id that is not in its table and the QR code library encodes strings
    of the length of the link,
    [handleEncryptAndSubmit] ends with the result dialog; and
    [fetchAndDecrypt], given the part of the link after [baseUrl/] as its
    route parameter at any time [now'] up to [now + ttl] (the worker does
    not find [now + ttl < now']), shows the content (with
    unpaired surrogates replaced by U+FFFD and without a leading U+FEFF)
    and leaves the worker's state as it is.  The requests of both pages
    reach the worker's routes, and AES-GCM decryption undoes encryption
    under the same key and 12-byte nonce. *)
Theorem shared_note_opens
    (enc : Crypto.CryptoKey -> bytes -> bytes -> bytes)
    (dec : Crypto.CryptoKey -> bytes -> bytes -> option bytes)
    (pathname : jsstring -> jsstring) (workerUrl : jsstring)
    (toDataURL : jsstring -> result jsstring)
    (content password baseUrl : jsstring) (ttl : Number.number)
    (now now' : Z) (g : rng) (w : rng * Worker.DB) :
  aead_correct_at 12 enc dec ->
  pathname (Home.submitUrl workerUrl) = js "/api/submit" ->
  (forall id,
      forallb url_safe id = true ->
      pathname (ViewNote.fetchUrl workerUrl id) = js "/api/fetch/" ++ id) ->
  is_jsstring content -> content <> [] -> ~ In TILDE password ->
  Number.falsy ttl = false -> Number.json ttl = Some ttl ->
  Number.lt (Number.add (Number.of_Z now) ttl) (Number.of_Z now') = false ->
  (forall u,
      List.length u
      = (List.length baseUrl + 14
         + match password with
           | [] => 16
           | _ :: _ => List.length password
           end)%nat ->
      exists q, toDataURL u = Ok q) ->
  (forall id gw, Worker.generateId 12 (fst w) = Ok (id, gw) ->
                 snd w !! id = None) ->
  exists idKey qr g' w',
    Home.handleEncryptAndSubmit enc workerUrl (rng * Worker.DB)
      (worker_post pathname now) toDataURL content password ttl baseUrl g w
    = (Home.Result (baseUrl ++ js "/" ++ idKey) qr, g', w')
    /\ ViewNote.fetchAndDecrypt dec workerUrl (rng * Worker.DB)
         (worker_get pathname now') (Some idKey) w'
       = (ViewNote.Shown (without_leading_bom (toWellFormed content)), w').
Proof.
  intros Haead Hp Hf Hjs Hc Hpw Ht Hj Hnow Hq Hfree.
  destruct (handleEncryptAndSubmit_shows enc pathname workerUrl toDataURL
              content password baseUrl ttl now g w Hp Hc Ht Hj Hq Hfree)
    as (url & qr & g' & w' & H).
  destruct (handleEncryptAndSubmit_result enc pathname workerUrl toDataURL
              content password baseUrl ttl now g g' w w' url qr Hp H)
    as (id & key & g0 & env & -> & Hid & Hgen & Hown & He & Hdb).
  exists (id ++ js "~" ++ key), qr, g', w'. split; [exact H|].
  assert (Hkey : ~ In TILDE key).
  { destruct password as [|p ps].
    - now apply url_safe_not_tilde, Hgen.
    - now rewrite (Hown ltac:(discriminate)). }
  rewrite fetchAndDecrypt_link
    by first [assumption|apply url_safe_not_tilde; assumption].
  rewrite (worker_get_fetch pathname now' _ id) by now apply Hf.
  rewrite Hdb.
  rewrite (fetch_alive now' id _ _ (lookup_insert_eq _ id _))
    by (cbn [Worker.expires_at]; exact Hnow).
  cbn [Worker.cipher_text Worker.iv Worker.expires_at Handler.response
       Http.ok Http.status Http.data Http.cipher_text Http.iv].
  change (negb ((200 <=? 200) && (200 <=? 299))) with false.
  cbv beta iota zeta.
  destruct (roundtrip_value enc dec content key g0 Haead)
    as (env' & g'' & He' & Hd).
  rewrite He in He'. injection He' as <- <-.
  rewrite Hd, decode_encode_any by exact Hjs.
  rewrite <- Hdb. now destruct w'.
Qed.

Lemma shared_note_opens_witness :
  exists idKey qr g' w',
    Home.handleEncryptAndSubmit ModelAEAD.encrypt (js "/api")
      (rng * Worker.DB) (worker_post (fun url => url) 1000)
      (fun url => Ok url) (js "hi") (js "pw") (Number.of_Z 60)
      (js "https://txtoo.example") sample_rng (sample_rng, ∅)
    = (Home.Result (js "https://txtoo.example" ++ js "/" ++ idKey) qr, g',
       w')
    /\ ViewNote.fetchAndDecrypt ModelAEAD.decrypt (js "/api")
         (rng * Worker.DB) (worker_get (fun url => url) 1060) (Some idKey) w'
       = (ViewNote.Shown (without_leading_bom (toWellFormed (js "hi"))), w').
Proof.
  apply (shared_note_opens ModelAEAD.encrypt ModelAEAD.decrypt
           (fun url => url) (js "/api") (fun url => Ok url) (js "hi")
           (js "pw") (js "https://txtoo.example") (Number.of_Z 60) 1000 1060
           sample_rng (sample_rng, ∅)).
  - apply model_aead_correct.
  - reflexivity.
  - intros id _. reflexivity.
  - repeat (apply List.Forall_cons; [reflexivity|]). apply List.Forall_nil.
  - discriminate.
  - intros [H|[H|[]]]; discriminate H.
  - reflexivity.
  - reflexivity.
  - vm_compute. reflexivity.
  - intros u _. now exists u.
  - intros id gw _. apply lookup_empty.
Defined.

(** A note shared from [Home] with a password without ['~'] (or with
    none, so that one is generated) and opened after it has expired, the
    requests of both pages reaching the worker's routes: [fetchAndDecrypt],
    given the part of the link after [baseUrl/] at a time [now'] that the
    worker finds after [now + ttl], shows ["Failed to fetch note"] (the
    worker answers 410 and deletes the row); and in the state this leaves,
    at any time, it shows ["Note not found or has expired"] (the worker
    answers 404). *)
Theorem shared_note_expired
    (enc : Crypto.CryptoKey -> bytes -> bytes -> bytes)
    (dec : Crypto.CryptoKey -> bytes -> bytes -> option bytes)
    (pathname : jsstring -> jsstring) (workerUrl : jsstring)
    (toDataURL : jsstring -> result jsstring)
    (content password baseUrl : jsstring) (ttl : Number.number)
    (now now' : Z) (g g' : rng) (w w' : rng * Worker.DB)
    (url qr : jsstring) :
  pathname (Home.submitUrl workerUrl) = js "/api/submit" ->
  (forall id,
      forallb url_safe id = true ->
      pathname (ViewNote.fetchUrl workerUrl id) = js "/api/fetch/" ++ id) ->
  ~ In TILDE password ->
  Number.lt (Number.add (Number.of_Z now) ttl) (Number.of_Z now') = true ->
  Home.handleEncryptAndSubmit enc workerUrl (rng * Worker.DB)
    (worker_post pathname now) toDataURL content password ttl baseUrl g w
  = (Home.Result url qr, g', w') ->
  exists idKey w'',
    url = baseUrl ++ js "/" ++ idKey
    /\ ViewNote.fetchAndDecrypt dec workerUrl (rng * Worker.DB)
         (worker_get pathname now') (Some idKey) w'
       = (ViewNote.Failed (js "Failed to fetch note"), w'')
    /\ forall later,
         ViewNote.fetchAndDecrypt dec workerUrl (rng * Worker.DB)
           (worker_get pathname later) (Some idKey) w''
         = (ViewNote.Failed (js "Note not found or has expired"), w'').
Proof.
  intros Hp Hf Hpw Hnow H.
  destruct (handleEncryptAndSubmit_result enc pathname workerUrl toDataURL
              content password baseUrl ttl now g g' w w' url qr Hp H)
    as (id & key & g0 & env & -> & Hid & Hgen & Hown & He & Hdb).
  assert (Hkey : ~ In TILDE key).
  { destruct password as [|p ps].
    - now apply url_safe_not_tilde, Hgen.
    - now rewrite (Hown ltac:(discriminate)). }
  exists (id ++ js "~" ++ key), (fst w', delete id (snd w')).
  split; [reflexivity|]. split; [|intros later].
  - rewrite fetchAndDecrypt_link
      by first [assumption|apply url_safe_not_tilde; assumption].
    rewrite (worker_get_fetch pathname now' _ id) by now apply Hf.
    rewrite Hdb.
    rewrite (fetch_expired now' id _ _ (lookup_insert_eq _ id _))
      by (cbn [Worker.expires_at]; exact Hnow).
    reflexivity.
  - rewrite fetchAndDecrypt_link
      by first [assumption|apply url_safe_not_tilde; assumption].
    rewrite (worker_get_fetch pathname later _ id) by now apply Hf.
    cbn [fst snd].
    rewrite (fetch_missing later id _ (lookup_delete_eq _ id)).
    reflexivity.
Qed.

Lemma shared_note_expired_witness :
  exists idKey w'',
    js "https://txtoo.example/-h9EaY6z2P0i~pw"
    = js "https://txtoo.example" ++ js "/" ++ idKey
    /\ ViewNote.fetchAndDecrypt ModelAEAD.decrypt (js "/api")
         (rng * Worker.DB) (worker_get (fun url => url) 1061) (Some idKey)
         (snd (Home.handleEncryptAndSubmit ModelAEAD.encrypt (js "/api")
                 (rng * Worker.DB) (worker_post (fun url => url) 1000)
                 (fun url => Ok url) (js "hi") (js "pw") (Number.of_Z 60)
                 (js "https://txtoo.example") sample_rng (sample_rng, ∅)))
       = (ViewNote.Failed (js "Failed to fetch note"), w'')
    /\ forall later,
         ViewNote.fetchAndDecrypt ModelAEAD.decrypt (js "/api")
           (rng * Worker.DB) (worker_get (fun url => url) later)
           (Some idKey) w''
         = (ViewNote.Failed (js "Note not found or has expired"), w'').
Proof.
  apply (shared_note_expired ModelAEAD.encrypt ModelAEAD.decrypt
           (fun url => url) (js "/api") (fun url => Ok url) (js "hi")
           (js "pw") (js "https://txtoo.example") (Number.of_Z 60) 1000 1061
           sample_rng {| source := source sample_rng; drawn := 28 |}
           (sample_rng, ∅) _ _
           (js "https://txtoo.example/-h9EaY6z2P0i~pw")).
  - reflexivity.
  - intros id _. reflexivity.
  - intros [H|[H|[]]]; discriminate H.
  - vm_compute. reflexivity.
  - vm_compute. reflexivity.
Defined.

(** A password that contains ['~'] gives a link that cannot be opened:
    whatever answers the request of [Home], the part after [baseUrl/] of
    a link it shows for such a password is refused by [fetchAndDecrypt]
    as an invalid URL, before any request is made. *)
Theorem tilde_password_link_invalid
    (enc : Crypto.CryptoKey -> bytes -> bytes -> bytes)
    (workerUrl : jsstring) (World : Type)
    (http_post : jsstring -> Worker.Request.body -> World
                 -> result Http.Response * World)
    (toDataURL : jsstring -> result jsstring)
    (content password baseUrl : jsstring) (ttl : Number.number)
    (g g' : rng) (w w' : World) (url qr : jsstring) :
  In TILDE password ->
  Home.handleEncryptAndSubmit enc workerUrl World http_post toDataURL
    content password ttl baseUrl g w
  = (Home.Result url qr, g', w') ->
  exists idKey,
    url = baseUrl ++ js "/" ++ idKey
    /\ forall (dec : Crypto.CryptoKey -> bytes -> bytes -> option bytes)
         (readerUrl : jsstring) (Reader : Type)
         (http_get : jsstring -> Reader -> result Http.Response * Reader)
         (v : Reader),
         ViewNote.fetchAndDecrypt dec readerUrl Reader http_get
           (Some idKey) v
         = (ViewNote.Failed
              (js "Invalid URL format. Expected format: /{id}~{key}"), v).
Proof.
  intros Hin H. unfold Home.handleEncryptAndSubmit in H.
  destruct content as [|c content]; [discriminate H|].
  destruct password as [|p ps]; [destruct Hin|].
  cbv beta iota zeta in H.
  destruct (Crypto.encryptText enc (c :: content) (p :: ps) g)
    as [[env g1]|e]; [|discriminate H].
  destruct (http_post _ _ w) as [[r|e] w0]; [|discriminate H].
  destruct (Http.ok r); [|discriminate H].
  destruct (Http.data r) as [data|]; [|discriminate H].
  set (noteId := match Http.id data with
                 | Some id => id
                 | None => js "undefined"
                 end) in H.
  destruct (toDataURL _) as [q|e]; [|discriminate H].
  assert (Hu : url = baseUrl ++ js "/" ++ noteId ++ js "~" ++ p :: ps)
    by congruence.
  exists (noteId ++ js "~" ++ p :: ps). split; [exact Hu|].
  intros dec readerUrl Reader http_get v.
  apply fetchAndDecrypt_invalid; [now destruct noteId|].
  rewrite split_length. change (js "~" ++ p :: ps) with (TILDE :: p :: ps).
  rewrite count_occ_app, count_occ_cons_eq by reflexivity.
  apply (count_occ_In N.eq_dec) in Hin. lia.
Qed.

Lemma tilde_password_link_invalid_witness :
  exists idKey,
    js "https://txtoo.example/-h9EaY6z2P0i~a~b"
    = js "https://txtoo.example" ++ js "/" ++ idKey
    /\ forall (dec : Crypto.CryptoKey -> bytes -> bytes -> option bytes)
         (readerUrl : jsstring) (Reader : Type)
         (http_get : jsstring -> Reader -> result Http.Response * Reader)
         (v : Reader),
         ViewNote.fetchAndDecrypt dec readerUrl Reader http_get
           (Some idKey) v
         = (ViewNote.Failed
              (js "Invalid URL format. Expected format: /{id}~{key}"), v).
Proof.
  apply (tilde_password_link_invalid ModelAEAD.encrypt (js "/api")
           (rng * Worker.DB) (worker_post (fun url => url) 1000)
           (fun url => Ok url) (js "hi") (js "a~b")
           (js "https://txtoo.example") (Number.of_Z 60) sample_rng
           {| source := source sample_rng; drawn := 28 |}
           (sample_rng, ∅)
           (snd (Home.handleEncryptAndSubmit ModelAEAD.encrypt (js "/api")
                   (rng * Worker.DB) (worker_post (fun url => url) 1000)
                   (fun url => Ok url) (js "hi") (js "a~b")
                   (Number.of_Z 60) (js "https://txtoo.example") sample_rng
                   (sample_rng, ∅)))
           (js "https://txtoo.example/-h9EaY6z2P0i~a~b")
           (js "https://txtoo.example/-h9EaY6z2P0i~a~b")).
  - right; left. reflexivity.
  - vm_compute. reflexivity.
Defined.
